(** * helles-client: a shallow embedding of [src/index.ts]

    The client talks to one remote tracing service.  It keeps an estimate of
    the clock offset to the server ([startTimeSync], [incrementBackoff]) and
    logs events into traces, registering each trace on first use
    ([logTraceEvent], [deleteTrace]).

    JavaScript numbers are IEEE 754 binary64 values; they are modelled by
    Rocq's primitive floats, so the arithmetic of the source ([rtt / 2],
    [Math.min], the comparisons on timestamps) is the arithmetic of the
    model.  Each method is a computation in a state-and-exception monad over
    the client object and the world around it (transport, clock, object heap,
    console, timers).  An [await] is a plain sequencing point: one operation
    runs without interleaving with another. *)

From Stdlib Require Import ZArith String Ascii Bool List.
From Stdlib Require Import PrimFloat SpecFloat FloatOps FloatAxioms.
From stdpp Require Import gmap strings list pretty.

Set Warnings "-register-all".
#[local] Open Scope string_scope.

(** ** JavaScript values *)

(** Parsed JSON, as [response.body.json()] and object literals produce it. *)
Inductive json : Type :=
| JNull
| JBool (b : bool)
| JNum (n : float)
| JStr (s : string)
| JArr (items : list json)
| JObj (props : gmap string json).

(** What an [async] method resolves with: a parsed body, or [undefined]. *)
Inductive value : Type :=
| Undefined
| Parsed (j : json).

(** A thrown value: an [Error] object.  [error_field] is the optional
    string-valued [error] property that the catch blocks of the source probe
    with [typeof error?.error === 'string']. *)
Record Error : Type := mkError {
  name : string;
  message : string;
  error_field : option string
}.

(** [new Error(msg)] *)
Definition new_Error (msg : string) : Error :=
  {| name := "Error"; message := msg; error_field := None |}.

(** [String(error)] for an [Error] object ([Error.prototype.toString]). *)
Definition String_of_Error (e : Error) : string :=
  if String.eqb (message e) EmptyString then name e
  else if String.eqb (name e) EmptyString then message e
  else name e +:+ ": " +:+ message e.

(** [error.message || String(error)] *)
Definition message_or_String (e : Error) : string :=
  if String.eqb (message e) EmptyString then String_of_Error e else message e.

(** Truthiness of an optional string: [undefined] and the empty string are falsy. *)
Definition truthy (o : option string) : bool :=
  match o with
  | Some s => negb (String.eqb s EmptyString)
  | None => false
  end.

(** [a || b] on optional strings. *)
Definition or_else (a b : option string) : option string :=
  if truthy a then a else b.

(** Truthiness of a parsed JSON value. *)
Definition truthy_json (j : json) : bool :=
  match j with
  | JNull => false
  | JBool b => b
  | JNum n => negb (PrimFloat.eqb n 0 || PrimFloat.is_nan n)
  | JStr s => negb (String.eqb s EmptyString)
  | JArr _ | JObj _ => true
  end.

(** [j?.key]: own property of a parsed JSON value; [None] is [undefined]. *)
Definition property (j : json) (key : string) : option json :=
  match j with
  | JObj props => props !! key
  | _ => None
  end.

(** ** Numbers *)

(** [a > b] and [a < b] on JavaScript numbers; both are false on NaN. *)
Definition js_lt (a b : float) : bool := PrimFloat.ltb a b.
Definition js_gt (a b : float) : bool := PrimFloat.ltb b a.

(** [Math.min(a, b)]: NaN if either argument is NaN, and [-0] below [+0]. *)
Definition Math_min (a b : float) : float :=
  if PrimFloat.is_nan a || PrimFloat.is_nan b then PrimFloat.nan
  else if PrimFloat.ltb a b then a
  else if PrimFloat.ltb b a then b
  else if PrimFloat.get_sign a then a else b.

(** ** Strings *)

(** [hay.includes(needle)] *)
Fixpoint includes (needle hay : string) : bool :=
  String.prefix needle hay ||
  match hay with
  | EmptyString => false
  | String _ rest => includes needle rest
  end.

(** [s.endsWith('/') ? s.slice(0, -1) : s] *)
Fixpoint strip_trailing_slash (s : string) : string :=
  match s with
  | EmptyString => EmptyString
  | String c EmptyString => if Ascii.eqb c "/" then EmptyString else s
  | String c rest => String c (strip_trailing_slash rest)
  end.

(** ** The wire *)

Module TracePayload.
(** Body of [POST /traces] (lines 250-254). *)
Record t : Type := mk {
  traceKey : string;
  traceType : string;
  traceString : string
}.
End TracePayload.

Module EventPayload.
(** Body of [POST /events] (lines 278-286).  [eventAttributes] is the
    content of the attribute object at the moment the body is serialized;
    [undefined] fields are dropped by the serializer. *)
Record t : Type := mk {
  traceKey : string;
  eventTypeKey : string;
  eventString : option string;
  eventAttributes : gmap string json;
  eventSender : string;
  eventTimestampUtc : float;
  eventUniquer : option string
}.
End EventPayload.

Module DeletePayload.
(** Body of [POST /traces/delete] (lines 355-358). *)
Record t : Type := mk {
  apiKey : string;
  traceKey : string
}.
End DeletePayload.

(** The object handed to [wf_stringify] for the request body.  Serialization
    to text is the transport's side of the wire; the payload is kept as the
    object that is serialized. *)
Inductive Body : Type :=
| NoBody
| TraceBody (p : TracePayload.t)
| EventBody (p : EventPayload.t)
| DeleteBody (p : DeletePayload.t).

Inductive Method : Type := GET | POST.

(** One call of undici's [request(url, { method, headers, body })]. *)
Record Request : Type := mkRequest {
  url : string;
  method : Method;
  body : Body
}.

(** Result of running a computation: it returns, or it throws. *)
Inductive completion (A : Type) : Type :=
| Normal (a : A)
| Throw (e : Error).
Arguments Normal {A} a.
Arguments Throw {A} e.

(** A response: its status code, and what [response.body.json()] does. *)
Record Response : Type := mkResponse {
  statusCode : Z;
  body_json : completion json
}.

(** What the transport does with a request. *)
Inductive Reply : Type :=
| Rejects (e : Error)
| Responds (r : Response).

(** ** The client object and the world *)

(** Lines 26-31. *)
Record TimeSyncState : Type := mkTimeSync {
  latency : option float;
  offset : float;
  lastCheck : option float;
  nextIntervalMs : float
}.

Definition BASE_SYNC_INTERVAL_MS : float := 30000%float.
Definition BACKOFF_STEP_MS : float := 15000%float.
Definition MAX_SYNC_INTERVAL_MS : float := 180000%float.

(** References to JavaScript objects, and the objects they denote.  A
    reference outside the domain of the heap denotes an object without own
    properties. *)
Definition ref : Type := positive.
Abbreviation Heap := (gmap positive (gmap string json)).

(** A callback supplied by the caller ([onError]): it runs against the
    caller's objects, and returns or throws. *)
Definition Callback (A : Type) : Type := Heap -> completion A * Heap.

(** Everything outside the client object. *)
Record World : Type := mkWorld {
  (** the transport and the service behind it: the reply to the [n]-th call *)
  net : nat -> Request -> Reply;
  (** the calls issued so far, oldest first *)
  calls : list Request;
  (** successive readings of [Date.now()] *)
  clock : nat -> float;
  ticks : nat;
  (** objects shared with the caller *)
  heap : Heap;
  (** [console.warn] lines *)
  console : list (string * option json);
  (** delays handed to [setTimeout], oldest first *)
  timers : list float
}.

Module Defaults.
(** Lines 44-50.  [eventTimestampFunc] is a thunk [() => number]; it is
    taken to be free of side effects: it reads the world and returns. *)
Record t : Type := mk {
  sender : option string;
  traceType : option string;
  eventTimestampFunc : option (World -> float);
  onError : option (Error -> Callback unit);
  traceSuffix : option string
}.
End Defaults.

Module Config.
(** Argument of the constructor (lines 71-81). *)
Record t : Type := mk {
  hellesHost : string;
  apiKey : option string;
  defaults : Defaults.t
}.
End Config.

Module LogTraceEvent.
(** Parameter object of [logTraceEvent] (lines 201-223).  [eventAttributes]
    is a reference: the caller and the method share the object. *)
Record params : Type := mk {
  traceKey : string;
  eventType : string;
  eventString : option string;
  eventSender : option string;
  eventAttributes : option ref;
  eventTimestampUtc : option float;
  eventUniquer : option string;
  eventTypeIcon : option string;
  eventTypeLabel : option string;
  onError : option (Error -> Callback unit)
}.
End LogTraceEvent.

Module DeleteTrace.
(** Parameter object of [deleteTrace] (lines 335-341). *)
Record params : Type := mk {
  traceKey : string;
  onError : option (Error -> Callback unit)
}.
End DeleteTrace.

(** The fields of a [HellesClient] instance (lines 42-57). *)
Record HellesClient : Type := mkClient {
  hellesHost : string;
  apiKey : option string;
  defaults : Defaults.t;
  registeredTraces : gset string;
  timeSync : TimeSyncState
}.

Record State : Type := mkState {
  this : HellesClient;
  world : World
}.

(** ** The monad of methods *)

Definition M (A : Type) : Type := State -> completion A * State.

Definition ret {A} (a : A) : M A := fun s => (Normal a, s).

Definition bind {A B} (m : M A) (k : A -> M B) : M B :=
  fun s =>
    match m s with
    | (Normal a, s') => k a s'
    | (Throw e, s') => (Throw e, s')
    end.

Definition throw {A} (e : Error) : M A := fun s => (Throw e, s).

(** [try { m } catch (error) { h error }] *)
Definition try_catch {A} (m : M A) (h : Error -> M A) : M A :=
  fun s =>
    match m s with
    | (Normal a, s') => (Normal a, s')
    | (Throw e, s') => h e s'
    end.

(** [try { m } finally { f }], for an [f] that completes normally or throws. *)
Definition try_finally {A} (m : M A) (f : M unit) : M A :=
  fun s =>
    match m s with
    | (r, s') =>
        match f s' with
        | (Normal _, s'') => (r, s'')
        | (Throw e, s'') => (Throw e, s'')
        end
    end.

Declare Scope js_scope.
Delimit Scope js_scope with js.
Notation "x <- m ;; k" := (bind m (fun x => k))
  (at level 100, m at next level, right associativity) : js_scope.
Notation "m ;; k" := (bind m (fun _ => k))
  (at level 100, right associativity) : js_scope.
#[local] Open Scope js_scope.

Definition gets {A} (f : State -> A) : M A := fun s => (Normal (f s), s).

Definition set_this (c : HellesClient) : M unit :=
  fun s => (Normal tt, {| this := c; world := world s |}).

Definition set_world (w : World) : M unit :=
  fun s => (Normal tt, {| this := this s; world := w |}).

(** [this.timeSync = ts] *)
Definition set_timeSync (ts : TimeSyncState) : M unit :=
  c <- gets this ;;
  set_this {| hellesHost := hellesHost c; apiKey := apiKey c;
              defaults := defaults c;
              registeredTraces := registeredTraces c; timeSync := ts |}.

(** [this.registeredTraces = traces] (the set is updated in place) *)
Definition set_registeredTraces (traces : gset string) : M unit :=
  c <- gets this ;;
  set_this {| hellesHost := hellesHost c; apiKey := apiKey c;
              defaults := defaults c;
              registeredTraces := traces; timeSync := timeSync c |}.

(** [Date.now()] *)
Definition Date_now : M float :=
  w <- gets world ;;
  set_world {| net := net w; calls := calls w; clock := clock w;
               ticks := S (ticks w); heap := heap w; console := console w;
               timers := timers w |} ;;
  ret (clock w (ticks w)).

(** [await request(url, { method, body })]: the call is recorded, and the
    transport answers or fails. *)
Definition request (r : Request) : M Response :=
  w <- gets world ;;
  set_world {| net := net w; calls := calls w ++ [r]; clock := clock w;
               ticks := ticks w; heap := heap w; console := console w;
               timers := timers w |} ;;
  match net w (length (calls w)) r with
  | Rejects e => throw e
  | Responds resp => ret resp
  end.

(** [await response.body.json()] *)
Definition json_of (resp : Response) : M json :=
  match body_json resp with
  | Normal j => ret j
  | Throw e => throw e
  end.

(** [await response.body.json().catch(() => ({}))] *)
Definition json_or_empty (resp : Response) : M json :=
  match body_json resp with
  | Normal j => ret j
  | Throw _ => ret (JObj ∅)
  end.

(** [console.warn(line, extra)] *)
Definition console_warn (line : string) (extra : option json) : M unit :=
  w <- gets world ;;
  set_world {| net := net w; calls := calls w; clock := clock w;
               ticks := ticks w; heap := heap w;
               console := console w ++ [(line, extra)];
               timers := timers w |}.

(** [setTimeout(cb, delay)]: the loop's next attempt is armed. *)
Definition setTimeout (delay : float) : M unit :=
  w <- gets world ;;
  set_world {| net := net w; calls := calls w; clock := clock w;
               ticks := ticks w; heap := heap w; console := console w;
               timers := timers w ++ [delay] |}.

Definition set_heap (h : Heap) : M unit :=
  w <- gets world ;;
  set_world {| net := net w; calls := calls w; clock := clock w;
               ticks := ticks w; heap := h; console := console w;
               timers := timers w |}.

(** The own properties of the object behind a reference. *)
Definition object_at (h : Heap) (o : ref) : gmap string json :=
  default ∅ (h !! o).

(** [{}]: a new object. *)
Definition new_object : M ref :=
  h <- gets (fun s => heap (world s)) ;;
  let o := fresh (dom h) in
  set_heap (<[o := ∅]> h) ;;
  ret o.

(** [o.key = v]: the object is changed in place. *)
Definition set_property (o : ref) (key : string) (v : json) : M unit :=
  h <- gets (fun s => heap (world s)) ;;
  set_heap (<[o := <[key := v]> (object_at h o)]> h).

(** Run a callback of the caller. *)
Definition callback {A} (cb : Callback A) : M A :=
  fun s =>
    match cb (heap (world s)) with
    | (r, h) =>
        match set_heap h s with
        | (_, s') => (r, s')
        end
    end.

(** ** The JavaScript runtime *)

(** Three built-ins of the runtime that the source relies on and that are not
    part of it: the text of a number in a template literal, [JSON.stringify],
    and [String.prototype.toUpperCase], the upper-casing of the Unicode
    standard ([s.toUpperCase()] is written [toUpperCase s]).  Nothing is
    assumed of them: what is proved holds whatever text they produce. *)
Class Runtime : Type := {
  Number_toString : float -> string;
  JSON_stringify : json -> string;
  toUpperCase : string -> string
}.

(** ** The class [HellesClient] *)

Section HellesClient.

Context {runtime : Runtime}.

(** Lines 8-12: [JSON.stringify] with a replacer that turns BigInts into
    strings; parsed JSON holds no BigInt. *)
Definition wf_stringify (obj : json) : string := JSON_stringify obj.

(** Lines 71-89, without the call of [startTimeSync]. *)
Definition constructor (config : Config.t) : HellesClient :=
  {| hellesHost := strip_trailing_slash (Config.hellesHost config);
     apiKey := Config.apiKey config;
     defaults := Config.defaults config;
     registeredTraces := ∅;
     timeSync := {| latency := None; offset := 0%float; lastCheck := None;
                    nextIntervalMs := BASE_SYNC_INTERVAL_MS |} |}.

(** Lines 96-99. *)
Definition applyTraceSuffix (traceKey : string) : M string :=
  suffix <- gets (fun s => Defaults.traceSuffix (defaults (this s))) ;;
  ret (if truthy suffix then traceKey +:+ default EmptyString suffix
       else traceKey).

(** Lines 105-107. *)
Definition getTimeSync : M TimeSyncState := gets (fun s => timeSync (this s)).

(** Lines 113-115, with [now] of lines 19-21. *)
Definition now : M float :=
  t <- Date_now ;;
  offset <- gets (fun s => offset (timeSync (this s))) ;;
  ret (t + offset)%float.

(** Lines 175-183. *)
Definition incrementBackoff : M unit :=
  ts <- gets (fun s => timeSync (this s)) ;;
  let increased := (nextIntervalMs ts + BACKOFF_STEP_MS)%float in
  let nextIntervalMs' := Math_min increased MAX_SYNC_INTERVAL_MS in
  set_timeSync {| latency := latency ts; offset := offset ts;
                  lastCheck := lastCheck ts;
                  nextIntervalMs := nextIntervalMs' |}.

(** Lines 123-165: one attempt of the synchronization loop.  The [finally]
    block arms the next attempt, [sync false], after [nextIntervalMs]. *)
Definition sync (isInitial : bool) : M unit :=
  sendTime <- Date_now ;;
  try_finally
    (try_catch
       (host <- gets (fun s => hellesHost (this s)) ;;
        response <- request {| url := host +:+ "/time"; method := GET;
                               body := NoBody |} ;;
        receiveTime <- Date_now ;;
        let rtt := (receiveTime - sendTime)%float in
        let latency := (rtt / 2)%float in
        body <- json_of response ;;
        let serverUtcMilliseconds := property body "serverUtcMilliseconds" in
        match serverUtcMilliseconds with
        | Some (JNum serverUtcMilliseconds) =>
            let clientTimeAtServer := (receiveTime - latency)%float in
            let offset := (serverUtcMilliseconds - clientTimeAtServer)%float in
            set_timeSync {| latency := Some latency; offset := offset;
                            lastCheck := Some receiveTime;
                            nextIntervalMs := BASE_SYNC_INTERVAL_MS |}
        | _ =>
            console_warn
              "HellesClient time sync: invalid /time response payload"
              (Some body) ;;
            incrementBackoff
        end)
       (fun error =>
          let message := message error in
          if isInitial
          then throw (new_Error "Helles startup connection health check failed")
          else
            console_warn ("HellesClient time sync failed: " +:+ message) None ;;
            incrementBackoff))
    (delay <- gets (fun s => nextIntervalMs (timeSync (this s))) ;;
     setTimeout delay).

(** Lines 122-169: the first attempt, which is not awaited. *)
Definition startTimeSync : M unit := sync true.

(** Lines 314-323 and 389-397: the [catch] block that closes both public
    methods.  After a handler has returned the method falls off its end. *)
Definition routeError (onError : option (Error -> Callback unit))
    (error : Error) : M value :=
  match onError with
  | Some handler => callback (handler error) ;; ret Undefined
  | None =>
      clientWide <- gets (fun s => Defaults.onError (defaults (this s))) ;;
      match clientWide with
      | Some handler => callback (handler error) ;; ret Undefined
      | None => throw error
      end
  end.

(** Lines 247-276: register the trace unless it is in the cache. *)
Definition logTraceEvent_register (_traceKey : string) : M unit :=
  registered <-
    gets (fun s => bool_decide (_traceKey ∈ registeredTraces (this s))) ;;
  if negb registered then
    try_catch
      (host <- gets (fun s => hellesHost (this s)) ;;
       traceType <- gets (fun s => Defaults.traceType (defaults (this s))) ;;
       let registerPayload :=
         {| TracePayload.traceKey := _traceKey;
            TracePayload.traceType := default "TRACE" traceType;
            TracePayload.traceString := _traceKey |} in
       response <- request {| url := host +:+ "/traces"; method := POST;
                              body := TraceBody registerPayload |} ;;
       if (400 <=? statusCode response)%Z then
         errorBody <- json_or_empty response ;;
         let errorDetails :=
           if truthy_json errorBody then wf_stringify errorBody
           else "HTTP " +:+ pretty (statusCode response) in
         throw (new_Error ("registerTrace err: " +:+ errorDetails))
       else ret tt)
      (fun error =>
         if includes "registerTrace err:" (message error) then throw error
         else
           let errorDetails := message_or_String error in
           throw (new_Error ("registerTrace err: " +:+ errorDetails))) ;;
    traces <- gets (fun s => registeredTraces (this s)) ;;
    set_registeredTraces ({[ _traceKey ]} ∪ traces)
  else ret tt.

(** Lines 288-313: post the event. *)
Definition logTraceEvent_submit (postPayload : EventPayload.t) : M value :=
  try_catch
    (host <- gets (fun s => hellesHost (this s)) ;;
     response <- request {| url := host +:+ "/events"; method := POST;
                            body := EventBody postPayload |} ;;
     if (400 <=? statusCode response)%Z then
       errorBody <- json_or_empty response ;;
       match property errorBody "error" with
       | Some (JStr e) => throw (new_Error ("logTraceEvent err: " +:+ e))
       | _ =>
           let errorDetails :=
             if truthy_json errorBody then wf_stringify errorBody
             else "HTTP " +:+ pretty (statusCode response) in
           throw (new_Error ("logTraceEvent err: " +:+ errorDetails))
       end
     else
       j <- json_of response ;;
       ret (Parsed j))
    (fun error =>
       match error_field error with
       | Some e => throw (new_Error ("logTraceEvent err: " +:+ e))
       | None =>
           let errorDetails := message_or_String error in
           throw (new_Error ("logTraceEvent err: " +:+ errorDetails))
       end).

(** The default of line 206 and lines 226-227: the attribute object, with
    the label and icon overrides written into it. *)
Definition logTraceEvent_attributes (p : LogTraceEvent.params) : M ref :=
  eventAttributes <-
    match LogTraceEvent.eventAttributes p with
    | Some o => ret o
    | None => new_object
    end ;;
  (if truthy (LogTraceEvent.eventTypeLabel p)
   then set_property eventAttributes "eventTypeLabel"
          (JStr (default EmptyString (LogTraceEvent.eventTypeLabel p)))
   else ret tt) ;;
  (if truthy (LogTraceEvent.eventTypeIcon p)
   then set_property eventAttributes "eventTypeIcon"
          (JStr (default EmptyString (LogTraceEvent.eventTypeIcon p)))
   else ret tt) ;;
  ret eventAttributes.

(** Lines 229-231: the effective timestamp.  The default is computed
    whether or not the caller gave a timestamp. *)
Definition logTraceEvent_timestamp (p : LogTraceEvent.params) : M float :=
  eventTimestampFunc <-
    gets (fun s => Defaults.eventTimestampFunc (defaults (this s))) ;;
  defaultTimestamp <-
    match eventTimestampFunc with
    | Some f => gets (fun s => f (world s))
    | None => now
    end ;;
  ret match LogTraceEvent.eventTimestampUtc p with
      | Some t => t
      | None => defaultTimestamp
      end.

(** Lines 225-313: the [try] block of [logTraceEvent]. *)
Definition logTraceEvent_try (p : LogTraceEvent.params) : M value :=
  _traceKey <- applyTraceSuffix (LogTraceEvent.traceKey p) ;;
  eventAttributes <- logTraceEvent_attributes p ;;
  _eventTimestampUtc <- logTraceEvent_timestamp p ;;
  (if js_gt _eventTimestampUtc 2565000000000
      || js_lt _eventTimestampUtc 1665000000000
   then throw (new_Error
                 ("eventTimestampUtc value "
                  +:+ Number_toString _eventTimestampUtc
                  +:+ " is out of range - expected Unix millisecond timestamp"))
   else ret tt) ;;
  sender <- gets (fun s => Defaults.sender (defaults (this s))) ;;
  _eventSender <-
    match or_else (LogTraceEvent.eventSender p) sender with
    | None => throw (new_Error "eventSender is required")
    | Some sender => ret sender
    end ;;
  logTraceEvent_register _traceKey ;;
  attributes <- gets (fun s => object_at (heap (world s)) eventAttributes) ;;
  let postPayload :=
    {| EventPayload.traceKey := _traceKey;
       EventPayload.eventTypeKey := LogTraceEvent.eventType p;
       EventPayload.eventString := LogTraceEvent.eventString p;
       EventPayload.eventAttributes := attributes;
       EventPayload.eventSender := _eventSender;
       EventPayload.eventTimestampUtc := _eventTimestampUtc;
       EventPayload.eventUniquer := LogTraceEvent.eventUniquer p |} in
  logTraceEvent_submit postPayload.

(** Lines 201-324. *)
Definition logTraceEvent (p : LogTraceEvent.params) : M value :=
  try_catch (logTraceEvent_try p) (routeError (LogTraceEvent.onError p)).

(** Lines 343-388: the [try] block of [deleteTrace]. *)
Definition deleteTrace_try (p : DeleteTrace.params) : M value :=
  apiKey <- gets (fun s => apiKey (this s)) ;;
  (if negb (truthy apiKey)
   then throw (new_Error "API key is required for deleteTrace")
   else ret tt) ;;
  (if negb (truthy (Some (DeleteTrace.traceKey p)))
   then throw (new_Error "traceKey is required")
   else ret tt) ;;
  _traceKey <- applyTraceSuffix (DeleteTrace.traceKey p) ;;
  let normalizedTraceKey := toUpperCase _traceKey in
  try_catch
    (let deletePayload :=
       {| DeletePayload.apiKey := default EmptyString apiKey;
          DeletePayload.traceKey := normalizedTraceKey |} in
     host <- gets (fun s => hellesHost (this s)) ;;
     response <- request {| url := host +:+ "/traces/delete"; method := POST;
                            body := DeleteBody deletePayload |} ;;
     if (400 <=? statusCode response)%Z then
       errorBody <- json_or_empty response ;;
       match property errorBody "error" with
       | Some (JStr e) => throw (new_Error ("deleteTrace err: " +:+ e))
       | _ =>
           let errorDetails :=
             if truthy_json errorBody then wf_stringify errorBody
             else "HTTP " +:+ pretty (statusCode response) in
           throw (new_Error ("deleteTrace err: " +:+ errorDetails))
       end
     else
       traces <- gets (fun s => registeredTraces (this s)) ;;
       (if bool_decide (normalizedTraceKey ∈ traces)
        then set_registeredTraces (traces ∖ {[ normalizedTraceKey ]})
        else ret tt) ;;
       j <- json_of response ;;
       ret (Parsed j))
    (fun error =>
       match error_field error with
       | Some e => throw (new_Error ("deleteTrace err: " +:+ e))
       | None =>
           let errorDetails := message_or_String error in
           throw (new_Error ("deleteTrace err: " +:+ errorDetails))
       end).

(** Lines 335-398. *)
Definition deleteTrace (p : DeleteTrace.params) : M value :=
  try_catch (deleteTrace_try p) (routeError (DeleteTrace.onError p)).

End HellesClient.

(** ** Observations used in the statements *)

(** How one attempt of the loop ends, read off the reply to [GET /time]. *)
Inductive attempt_outcome : Type :=
| Synced (serverUtcMilliseconds : float)
| InvalidPayload (body : json)
| Failed (e : Error).

Definition outcome_of (reply : Reply) : attempt_outcome :=
  match reply with
  | Rejects e => Failed e
  | Responds r =>
      match body_json r with
      | Throw e => Failed e
      | Normal j =>
          match property j "serverUtcMilliseconds" with
          | Some (JNum n) => Synced n
          | _ => InvalidPayload j
          end
      end
  end.

(** The reply the transport holds for the next call, if that call is [r]. *)
Definition next_reply (s : State) (r : Request) : Reply :=
  net (world s) (length (calls (world s))) r.

(** The outcome of an attempt started in state [s]. *)
Definition attempt (s : State) : attempt_outcome :=
  outcome_of (next_reply s {| url := hellesHost (this s) +:+ "/time";
                              method := GET; body := NoBody |}).

(** The state of the time synchronization after [incrementBackoff]. *)
Definition backed_off (ts : TimeSyncState) : TimeSyncState :=
  {| latency := latency ts; offset := offset ts; lastCheck := lastCheck ts;
     nextIntervalMs :=
       Math_min (nextIntervalMs ts + BACKOFF_STEP_MS)%float
                MAX_SYNC_INTERVAL_MS |}.

(** The state a client object is in after [n] attempts of the loop:
    [reachable isInitial ts] holds when [ts] can be the time-sync state at the
    start of an attempt, the flag telling whether that attempt is the first
    one.  Between two attempts the world and the rest of the client may have
    changed in any way. *)
Inductive reachable : bool -> TimeSyncState -> Prop :=
| reach_constructed config :
    reachable true (timeSync (constructor config))
| reach_attempt isInitial s :
    reachable isInitial (timeSync (this s)) ->
    reachable false (timeSync (this (snd (sync isInitial s)))).

(** The values [nextIntervalMs] takes. *)
Definition intervals : list float :=
  [30000; 45000; 60000; 75000; 90000; 105000; 120000; 135000; 150000;
   165000; 180000]%float.

(** A run of failed attempts: [failures_since s s'] holds when [s'] is reached
    from [s] by attempts of the loop that all fail, with any activity in
    between that leaves [timeSync] alone. *)
Inductive failures_since : State -> State -> Prop :=
| failures_none s : failures_since s s
| failures_more s s1 s2 :
    failures_since s s1 ->
    timeSync (this s2) = timeSync (this s1) ->
    (forall n, attempt s2 <> Synced n) ->
    failures_since s (snd (sync false s2)).

(** The fully-qualified trace key: the key with the configured suffix. *)
Definition fully_qualified (c : HellesClient) (traceKey : string) : string :=
  match Defaults.traceSuffix (defaults c) with
  | Some suffix =>
      if String.eqb suffix EmptyString then traceKey else traceKey +:+ suffix
  | None => traceKey
  end.

(** The effective timestamp of a call of [logTraceEvent] started in [s]: the
    explicit parameter, else the configured timestamp source (asked once the
    attribute object is prepared), else the synchronized clock. *)
Definition effective_timestamp (p : LogTraceEvent.params) (s : State) : float :=
  match LogTraceEvent.eventTimestampUtc p with
  | Some t => t
  | None =>
      match Defaults.eventTimestampFunc (defaults (this s)) with
      | Some f => f (world (snd (logTraceEvent_attributes p s)))
      | None =>
          (clock (world s) (ticks (world s)) + offset (timeSync (this s)))%float
      end
  end.

(** Strictly below the lower bound or strictly above the upper bound. *)
Definition out_of_range (t : float) : bool :=
  js_lt t 1665000000000 || js_gt t 2565000000000.

(** The error of lines 237-239, given the text of the timestamp. *)
Definition out_of_range_error (text : string) : Error :=
  new_Error ("eventTimestampUtc value " +:+ text
             +:+ " is out of range - expected Unix millisecond timestamp").

(** The sender the source resolves: [eventSender || this.defaults.sender]. *)
Definition effective_sender (p : LogTraceEvent.params) (c : HellesClient)
    : option string :=
  or_else (LogTraceEvent.eventSender p) (Defaults.sender (defaults c)).

(** A call passes the checks of lines 233-245. *)
Definition passes_validation (p : LogTraceEvent.params) (s : State) : bool :=
  negb (out_of_range (effective_timestamp p s))
  && bool_decide (is_Some (effective_sender p (this s))).

(** The state in which the checks of lines 233-245 run. *)
Definition resolved (p : LogTraceEvent.params) (s : State) : State :=
  snd ((logTraceEvent_attributes p ;; logTraceEvent_timestamp p) s).

(** The attribute object of a call. *)
Definition attributes_of (p : LogTraceEvent.params) (s : State) : ref :=
  match LogTraceEvent.eventAttributes p with
  | Some o => o
  | None => fresh (dom (heap (world s)))
  end.

(** The registration call for a fully-qualified key (lines 250-260). *)
Definition registration_request (c : HellesClient) (key : string) : Request :=
  {| url := hellesHost c +:+ "/traces"; method := POST;
     body := TraceBody {| TracePayload.traceKey := key;
                          TracePayload.traceType :=
                            default "TRACE" (Defaults.traceType (defaults c));
                          TracePayload.traceString := key |} |}.

(** The event-submission call of a payload (lines 289-293). *)
Definition submission_request (c : HellesClient) (payload : EventPayload.t)
    : Request :=
  {| url := hellesHost c +:+ "/events"; method := POST;
     body := EventBody payload |}.

(** The transport answered, with a status below 400. *)
Definition accepted (reply : Reply) : bool :=
  match reply with
  | Responds r => negb (400 <=? statusCode r)%Z
  | Rejects _ => false
  end.

Definition is_registration (r : Request) : bool :=
  match body r with TraceBody _ => true | _ => false end.

Definition is_submission (r : Request) : bool :=
  match body r with EventBody _ => true | _ => false end.

(** The calls issued between two states. *)
Definition issued (s s' : State) : list Request :=
  drop (length (calls (world s))) (calls (world s')).

Definition count (f : Request -> bool) (l : list Request) : nat :=
  length (List.filter f l).

(** The world after one more call has been recorded. *)
Definition after_call (r : Request) (w : World) : World :=
  {| net := net w; calls := calls w ++ [r]; clock := clock w;
     ticks := ticks w; heap := heap w; console := console w;
     timers := timers w |}.

(** The client object with one more key in its registration cache. *)
Definition caching (key : string) (c : HellesClient) : HellesClient :=
  {| hellesHost := hellesHost c; apiKey := apiKey c; defaults := defaults c;
     registeredTraces := {[ key ]} ∪ registeredTraces c;
     timeSync := timeSync c |}.

(** The payload a call of [logTraceEvent] started in [s] submits. *)
Definition event_payload (p : LogTraceEvent.params) (s : State)
    : EventPayload.t :=
  {| EventPayload.traceKey :=
       fully_qualified (this s) (LogTraceEvent.traceKey p);
     EventPayload.eventTypeKey := LogTraceEvent.eventType p;
     EventPayload.eventString := LogTraceEvent.eventString p;
     EventPayload.eventAttributes :=
       object_at (heap (world (resolved p s))) (attributes_of p s);
     EventPayload.eventSender :=
       default EmptyString (effective_sender p (this s));
     EventPayload.eventTimestampUtc := effective_timestamp p s;
     EventPayload.eventUniquer := LogTraceEvent.eventUniquer p |}.

(** The error a failed registration raises (lines 262-273). *)
Definition registration_error {runtime : Runtime} (reply : Reply) : Error :=
  match reply with
  | Rejects e =>
      if includes "registerTrace err:" (message e) then e
      else new_Error ("registerTrace err: " +:+ message_or_String e)
  | Responds r =>
      let errorBody :=
        match body_json r with
        | Normal j => j
        | Throw _ => JObj ∅
        end in
      new_Error ("registerTrace err: "
                 +:+ (if truthy_json errorBody then wf_stringify errorBody
                      else "HTTP " +:+ pretty (statusCode r)))
  end.

(** The state with the caller's objects replaced. *)
Definition with_heap (h : Heap) (s : State) : State :=
  {| this := this s;
     world := {| net := net (world s); calls := calls (world s);
                 clock := clock (world s); ticks := ticks (world s);
                 heap := h; console := console (world s);
                 timers := timers (world s) |} |}.

(** What a public method comes to when [handler] is invoked on [e] in state
    [s]: the handler runs once, on the caller's objects; if it returns, the
    method resolves with [undefined]; if it throws, the method rejects. *)
Definition handled_by (handler : Error -> Callback unit) (e : Error) (s : State)
    : completion value * State :=
  match handler e (heap (world s)) with
  | (Normal _, h) => (Normal Undefined, with_heap h s)
  | (Throw e', h) => (Throw e', with_heap h s)
  end.

(** The routing of an error [e] raised in state [s], as an outcome of the
    public method: the per-call handler if there is one, else the client-wide
    handler if there is one, else the error itself. *)
Definition routed (onError : option (Error -> Callback unit)) (e : Error)
    (s : State) (outcome : completion value * State) : Prop :=
  match onError with
  | Some perCall => outcome = handled_by perCall e s
  | None =>
      match Defaults.onError (defaults (this s)) with
      | Some clientWide => outcome = handled_by clientWide e s
      | None => outcome = (Throw e, s)
      end
  end.

(** Nothing was sent and the client object is as it was. *)
Definition quiet (s s' : State) : Prop :=
  this s' = this s /\
  net (world s') = net (world s) /\
  calls (world s') = calls (world s).

(** The handler the [catch] block of a public method picks. *)
Definition selected_handler (onError : option (Error -> Callback unit))
    (c : HellesClient) : option (Error -> Callback unit) :=
  match onError with
  | Some handler => Some handler
  | None => Defaults.onError (defaults c)
  end.

(** One back-off step on [nextIntervalMs]: fifteen seconds more, or the cap. *)
Definition backoff_step (before after : float) : Prop :=
  after = Math_min (before + BACKOFF_STEP_MS)%float MAX_SYNC_INTERVAL_MS /\
  (if PrimFloat.leb (before + BACKOFF_STEP_MS)%float MAX_SYNC_INTERVAL_MS
   then after = (before + BACKOFF_STEP_MS)%float
   else after = MAX_SYNC_INTERVAL_MS) /\
  PrimFloat.leb before after = true.

(** ** Observations on the calls and their outcomes *)

(** The call of one attempt of the loop (lines 127-129). *)
Definition time_request (c : HellesClient) : Request :=
  {| url := hellesHost c +:+ "/time"; method := GET; body := NoBody |}.

(** The deletion call for a fully-qualified key (lines 355-364). *)
Definition deletion_request {runtime : Runtime} (c : HellesClient)
    (key : string) : Request :=
  {| url := hellesHost c +:+ "/traces/delete"; method := POST;
     body := DeleteBody {| DeletePayload.apiKey :=
                             default EmptyString (apiKey c);
                           DeletePayload.traceKey := toUpperCase key |} |}.

(** What the [try]/[catch] around an event submission (lines 288-313) or a
    deletion (lines 354-388) comes to for a reply, [stage] being the prefix
    of the stage: an error thrown inside the [try], by the source itself as
    well, passes through the [catch] and is wrapped there. *)
Definition stage_outcome {runtime : Runtime} (stage : string) (reply : Reply)
    : completion value :=
  let wrapped (error : Error) :=
    match error_field error with
    | Some e => new_Error (stage +:+ e)
    | None => new_Error (stage +:+ message_or_String error)
    end in
  match reply with
  | Rejects e => Throw (wrapped e)
  | Responds r =>
      if (400 <=? statusCode r)%Z then
        let errorBody :=
          match body_json r with
          | Normal j => j
          | Throw _ => JObj ∅
          end in
        match property errorBody "error" with
        | Some (JStr e) => Throw (wrapped (new_Error (stage +:+ e)))
        | _ =>
            Throw (wrapped (new_Error
              (stage +:+ (if truthy_json errorBody then wf_stringify errorBody
                          else "HTTP " +:+ pretty (statusCode r)))))
        end
      else
        match body_json r with
        | Normal j => Normal (Parsed j)
        | Throw e => Throw (wrapped e)
        end
  end.

(** The reply to the event submission of a call of [logTraceEvent] started in
    [s]: the next reply when the key is cached, the one after the
    registration otherwise. *)
Definition submission_reply (p : LogTraceEvent.params) (s : State) : Reply :=
  let key := fully_qualified (this s) (LogTraceEvent.traceKey p) in
  let ev := submission_request (this s) (event_payload p s) in
  if bool_decide (key ∈ registeredTraces (this s))
  then net (world s) (length (calls (world s))) ev
  else net (world s) (S (length (calls (world s)))) ev.

(** The client object after the eviction of lines 376-378. *)
Definition evicting (key : string) (c : HellesClient) : HellesClient :=
  {| hellesHost := hellesHost c; apiKey := apiKey c; defaults := defaults c;
     registeredTraces :=
       if bool_decide (key ∈ registeredTraces c)
       then registeredTraces c ∖ {[ key ]}
       else registeredTraces c;
     timeSync := timeSync c |}.

(** The overrides lines 226-227 write, on top of [attributes]. *)
Definition with_overrides (p : LogTraceEvent.params)
    (attributes : gmap string json) : gmap string json :=
  let labelled :=
    if truthy (LogTraceEvent.eventTypeLabel p)
    then <["eventTypeLabel" :=
             JStr (default EmptyString (LogTraceEvent.eventTypeLabel p))]>
           attributes
    else attributes in
  if truthy (LogTraceEvent.eventTypeIcon p)
  then <["eventTypeIcon" :=
           JStr (default EmptyString (LogTraceEvent.eventTypeIcon p))]>
         labelled
  else labelled.

(** [k] runs of [incrementBackoff] in a row. *)
Definition backoffs (k : nat) (s : State) : State :=
  Nat.iter k (fun s => snd (incrementBackoff s)) s.

(** ** Concrete clients and worlds *)

Module Examples.

(** The text of a number, exact on integral values; a fraction is cut off. *)
Definition integral_text (t : float) : string :=
  match Prim2SF t with
  | S754_zero _ => "0"
  | S754_infinity sign => if sign then "-Infinity" else "Infinity"
  | S754_nan => "NaN"
  | S754_finite sign m e =>
      let magnitude :=
        match e with
        | Z0 => Zpos m
        | Zpos k => Z.shiftl (Zpos m) (Zpos k)
        | Zneg k => Z.shiftr (Zpos m) (Zpos k)
        end in
      pretty (if sign then (- magnitude)%Z else magnitude)
  end.

(** The text of a JSON value, one level deep. *)
Definition shallow_text (j : json) : string :=
  match j with
  | JNull => "null"
  | JBool b => if b then "true" else "false"
  | JNum n => integral_text n
  | JStr s => s
  | JArr _ => "[array]"
  | JObj _ => "[object]"
  end.

(** Upper-casing of text in the Basic Latin block, where the built-in takes
    [a]..[z] to [A]..[Z] and leaves every other character; the keys of the
    examples are such text. *)
Definition upper_latin_char (c : ascii) : ascii :=
  let n := N_of_ascii c in
  if (97 <=? n)%N && (n <=? 122)%N then ascii_of_N (n - 32) else c.

Fixpoint upper_latin (s : string) : string :=
  match s with
  | EmptyString => EmptyString
  | String c rest => String (upper_latin_char c) (upper_latin rest)
  end.

Definition runtime : Runtime :=
  {| Number_toString := integral_text; JSON_stringify := shallow_text;
     toUpperCase := upper_latin |}.

Definition defaults : Defaults.t :=
  {| Defaults.sender := Some "svc";
     Defaults.traceType := None;
     Defaults.eventTimestampFunc := None;
     Defaults.onError := None;
     Defaults.traceSuffix := Some "_dev" |}.

Definition config_of (d : Defaults.t) : Config.t :=
  {| Config.hellesHost := "https://helles.example/";
     Config.apiKey := Some "secret";
     Config.defaults := d |}.

Definition config : Config.t := config_of defaults.

Definition time_body (t : float) : json :=
  JObj {[ "serverUtcMilliseconds" := JNum t ]}.

Definition ok (j : json) : Reply :=
  Responds {| statusCode := 200; body_json := Normal j |}.

(** A service that answers every call. *)
Definition up : nat -> Request -> Reply :=
  fun _ r =>
    match body r with
    | NoBody => ok (time_body 1700000000100)
    | _ => ok (JObj ∅)
    end.

(** A service that cannot be reached. *)
Definition down : nat -> Request -> Reply :=
  fun _ _ => Rejects {| name := "Error"; message := "connect ECONNREFUSED";
                        error_field := None |}.

(** A service that refuses its first call with status 500 and answers the
    later ones. *)
Definition flaky : nat -> Request -> Reply :=
  fun n r =>
    match n with
    | O => Responds {| statusCode := 500;
                       body_json := Normal (JObj {[ "error" := JStr "busy" ]}) |}
    | S _ => up n r
    end.

(** The local clock reads 1,700,000,000,000 and then 1,700,000,000,050. *)
Definition local_clock (n : nat) : float :=
  match n with
  | O => 1700000000000%float
  | S _ => 1700000000050%float
  end.

(** The caller holds one attribute object, [{ amount: 1000 }]. *)
Definition caller_heap : Heap :=
  {[ 1%positive := {[ "amount" := JNum 1000 ]} ]}.

Definition world_of (service : nat -> Request -> Reply) : World :=
  {| net := service; calls := []; clock := local_clock; ticks := 0;
     heap := caller_heap; console := []; timers := [] |}.

(** A client right after construction. *)
Definition started_with (d : Defaults.t) (service : nat -> Request -> Reply)
    : State :=
  {| this := constructor (config_of d); world := world_of service |}.

Definition started (service : nat -> Request -> Reply) : State :=
  started_with defaults service.

(** A handler that notes the message of the error in property [slot] of the
    caller's object 2. *)
Definition note (slot : string) : Error -> Callback unit :=
  fun e h =>
    (Normal tt,
     <[2%positive := <[slot := JStr (message e)]> (object_at h 2%positive)]> h).

(** A call that logs a note on trace [deposit_1] at the given time, with a
    label and an icon, on the caller's attribute object. *)
Definition deposit (t : float) : LogTraceEvent.params :=
  {| LogTraceEvent.traceKey := "deposit_1";
     LogTraceEvent.eventType := "NOTE";
     LogTraceEvent.eventString := Some "Deposit initiated";
     LogTraceEvent.eventSender := None;
     LogTraceEvent.eventAttributes := Some 1%positive;
     LogTraceEvent.eventTimestampUtc := Some t;
     LogTraceEvent.eventUniquer := None;
     LogTraceEvent.eventTypeIcon := Some "*";
     LogTraceEvent.eventTypeLabel := Some "Alert";
     LogTraceEvent.onError := None |}.

(** The same call with a per-call handler. *)
Definition deposit_handled (t : float) : LogTraceEvent.params :=
  {| LogTraceEvent.traceKey := "deposit_1";
     LogTraceEvent.eventType := "NOTE";
     LogTraceEvent.eventString := Some "Deposit initiated";
     LogTraceEvent.eventSender := None;
     LogTraceEvent.eventAttributes := Some 1%positive;
     LogTraceEvent.eventTimestampUtc := Some t;
     LogTraceEvent.eventUniquer := None;
     LogTraceEvent.eventTypeIcon := Some "*";
     LogTraceEvent.eventTypeLabel := Some "Alert";
     LogTraceEvent.onError := Some (note "perCall") |}.

(** The same call with an explicit sender. *)
Definition deposit_from (sender : string) (t : float) : LogTraceEvent.params :=
  {| LogTraceEvent.traceKey := "deposit_1";
     LogTraceEvent.eventType := "NOTE";
     LogTraceEvent.eventString := Some "Deposit initiated";
     LogTraceEvent.eventSender := Some sender;
     LogTraceEvent.eventAttributes := Some 1%positive;
     LogTraceEvent.eventTimestampUtc := Some t;
     LogTraceEvent.eventUniquer := None;
     LogTraceEvent.eventTypeIcon := Some "*";
     LogTraceEvent.eventTypeLabel := Some "Alert";
     LogTraceEvent.onError := None |}.

(** Defaults with a client-wide handler. *)
Definition defaults_handled : Defaults.t :=
  {| Defaults.sender := Some "svc";
     Defaults.traceType := None;
     Defaults.eventTimestampFunc := None;
     Defaults.onError := Some (note "clientWide");
     Defaults.traceSuffix := Some "_dev" |}.

(** Defaults without a sender. *)
Definition defaults_anonymous : Defaults.t :=
  {| Defaults.sender := None;
     Defaults.traceType := None;
     Defaults.eventTimestampFunc := None;
     Defaults.onError := None;
     Defaults.traceSuffix := Some "_dev" |}.

(** The state [s] at a moment when the service cannot be reached. *)
Definition outage (s : State) : State :=
  {| this := this s;
     world := {| net := down; calls := calls (world s);
                 clock := clock (world s); ticks := ticks (world s);
                 heap := heap (world s); console := console (world s);
                 timers := timers (world s) |} |}.

Definition erase : DeleteTrace.params :=
  {| DeleteTrace.traceKey := "deposit_1"; DeleteTrace.onError := None |}.

Definition erase_handled : DeleteTrace.params :=
  {| DeleteTrace.traceKey := EmptyString;
     DeleteTrace.onError := Some (note "perCall") |}.

(** A service that registers traces and turns every event down with status
    422 and a structured error. *)
Definition refusing_events : nat -> Request -> Reply :=
  fun n r =>
    match body r with
    | EventBody _ =>
        Responds {| statusCode := 422;
                    body_json := Normal (JObj {[ "error" := JStr "bad event" ]}) |}
    | _ => up n r
    end.

(** A service that answers a deletion with status 200 and a body that is not
    JSON. *)
Definition garbled : nat -> Request -> Reply :=
  fun n r =>
    match body r with
    | DeleteBody _ =>
        Responds {| statusCode := 200;
                    body_json := Throw {| name := "SyntaxError";
                                          message := "Unexpected end of JSON input";
                                          error_field := None |} |}
    | _ => up n r
    end.

(** A service whose [/time] body carries the time as a string. *)
Definition mistyped : nat -> Request -> Reply :=
  fun _ _ => ok (JObj {[ "serverUtcMilliseconds" := JStr "1700000000100" ]}).

(** Defaults without a suffix. *)
Definition defaults_plain : Defaults.t :=
  {| Defaults.sender := Some "svc";
     Defaults.traceType := Some "acxDeposit";
     Defaults.eventTimestampFunc := None;
     Defaults.onError := None;
     Defaults.traceSuffix := None |}.

(** A client without an API key. *)
Definition keyless : State :=
  {| this := constructor {| Config.hellesHost := "https://helles.example";
                            Config.apiKey := None;
                            Config.defaults := defaults |};
     world := world_of up |}.

(** A handler that fails. *)
Definition complain : Error -> Callback unit :=
  fun _ h => (Throw (new_Error "handler failed"), h).

(** A note without attribute object, label, icon or timestamp. *)
Definition bare (key : string) : LogTraceEvent.params :=
  {| LogTraceEvent.traceKey := key;
     LogTraceEvent.eventType := "NOTE";
     LogTraceEvent.eventString := None;
     LogTraceEvent.eventSender := None;
     LogTraceEvent.eventAttributes := None;
     LogTraceEvent.eventTimestampUtc := None;
     LogTraceEvent.eventUniquer := Some "once";
     LogTraceEvent.eventTypeIcon := None;
     LogTraceEvent.eventTypeLabel := None;
     LogTraceEvent.onError := None |}.

(** The same with a handler that fails. *)
Definition bare_complaining (t : float) : LogTraceEvent.params :=
  {| LogTraceEvent.traceKey := "deposit_1";
     LogTraceEvent.eventType := "NOTE";
     LogTraceEvent.eventString := None;
     LogTraceEvent.eventSender := None;
     LogTraceEvent.eventAttributes := None;
     LogTraceEvent.eventTimestampUtc := Some t;
     LogTraceEvent.eventUniquer := None;
     LogTraceEvent.eventTypeIcon := None;
     LogTraceEvent.eventTypeLabel := None;
     LogTraceEvent.onError := Some complain |}.

Definition erase_key (key : string) : DeleteTrace.params :=
  {| DeleteTrace.traceKey := key; DeleteTrace.onError := None |}.

(** The client after a first note on [deposit_1], against a service. *)
Definition logged (service : nat -> Request -> Reply) : State :=
  snd (logTraceEvent (runtime := runtime) (bare "deposit_1") (started service)).

(** A client without suffix after a note on [DEPOSIT_1]. *)
Definition logged_upper (service : nat -> Request -> Reply) : State :=
  snd (logTraceEvent (runtime := runtime) (bare "DEPOSIT_1")
         (started_with defaults_plain service)).

(** The event submission of a call. *)
Definition submission (p : LogTraceEvent.params) (s : State) : Request :=
  submission_request (this s) (event_payload p s).

End Examples.

(** ** The synchronization loop *)

Lemma sync_timeSync isInitial s :
  timeSync (this (snd (sync isInitial s))) =
  match attempt s with
  | Synced serverUtcMilliseconds =>
      let sendTime := clock (world s) (ticks (world s)) in
      let receiveTime := clock (world s) (S (ticks (world s))) in
      let latency := ((receiveTime - sendTime) / 2)%float in
      {| latency := Some latency;
         offset := (serverUtcMilliseconds - (receiveTime - latency))%float;
         lastCheck := Some receiveTime;
         nextIntervalMs := BASE_SYNC_INTERVAL_MS |}
  | InvalidPayload _ => backed_off (timeSync (this s))
  | Failed _ =>
      if isInitial then timeSync (this s) else backed_off (timeSync (this s))
  end.
Proof.
  unfold attempt, next_reply, outcome_of, sync, try_finally, try_catch, bind,
    request, json_of, Date_now, gets, set_world, ret, throw.
  cbn.
  destruct (net (world s) _ _) as [e | r]; cbn.
  - destruct isInitial; reflexivity.
  - destruct (body_json r) as [j | e]; cbn.
    + destruct (property j "serverUtcMilliseconds") as [[]|]; reflexivity.
    + destruct isInitial; reflexivity.
Qed.

Lemma sync_completes isInitial s :
  fst (sync isInitial s) =
  match attempt s with
  | Failed _ =>
      if isInitial
      then Throw (new_Error "Helles startup connection health check failed")
      else Normal tt
  | _ => Normal tt
  end.
Proof.
  unfold attempt, next_reply, outcome_of, sync, try_finally, try_catch, bind,
    request, json_of, Date_now, gets, set_world, ret, throw.
  cbn.
  destruct (net (world s) _ _) as [e | r]; cbn.
  - destruct isInitial; reflexivity.
  - destruct (body_json r) as [j | e]; cbn.
    + destruct (property j "serverUtcMilliseconds") as [[]|]; reflexivity.
    + destruct isInitial; reflexivity.
Qed.

(** C1: a successful attempt (the reply to [GET /time] carries a numeric
    [serverUtcMilliseconds]) completes normally and stores
    [latency = (receiveTime - sendTime) / 2],
    [offset = serverUtcMilliseconds - (receiveTime - latency)],
    [lastCheck = receiveTime] and [nextIntervalMs = BASE_SYNC_INTERVAL_MS],
    where [sendTime] and [receiveTime] are the two readings of the local clock
    around the call. *)
Theorem sync_success_stores_offset isInitial s serverUtcMilliseconds :
  attempt s = Synced serverUtcMilliseconds ->
  let sendTime := clock (world s) (ticks (world s)) in
  let receiveTime := clock (world s) (S (ticks (world s))) in
  let half_rtt := ((receiveTime - sendTime) / 2)%float in
  let ts := timeSync (this (snd (sync isInitial s))) in
  fst (sync isInitial s) = Normal tt /\
  latency ts = Some half_rtt /\
  offset ts = (serverUtcMilliseconds - (receiveTime - half_rtt))%float /\
  lastCheck ts = Some receiveTime /\
  nextIntervalMs ts = BASE_SYNC_INTERVAL_MS.
Proof.
  intros Hsynced. cbv zeta.
  rewrite sync_completes, sync_timeSync, Hsynced. cbn.
  repeat split; reflexivity.
Qed.

Lemma backed_off_interval ts :
  In (nextIntervalMs ts) intervals ->
  In (nextIntervalMs (backed_off ts)) intervals /\
  backoff_step (nextIntervalMs ts) (nextIntervalMs (backed_off ts)).
Proof.
  unfold backoff_step, backed_off. cbn [nextIntervalMs].
  generalize (nextIntervalMs ts) as v. intros v Hv.
  unfold intervals in Hv. cbn [In] in Hv.
  repeat (destruct Hv as [<- | Hv]; [vm_compute; intuition |]).
  contradiction.
Qed.

Lemma interval_bounds v :
  In v intervals ->
  PrimFloat.leb BASE_SYNC_INTERVAL_MS v = true /\
  PrimFloat.leb v MAX_SYNC_INTERVAL_MS = true.
Proof.
  unfold intervals. cbn [In]. intros Hv.
  repeat (destruct Hv as [<- | Hv]; [vm_compute; intuition |]).
  contradiction.
Qed.

Lemma reachable_interval isInitial ts :
  reachable isInitial ts -> In (nextIntervalMs ts) intervals.
Proof.
  induction 1 as [config | isInitial s Hreach IH].
  - cbn. auto.
  - rewrite sync_timeSync.
    destruct (attempt s); [cbn; auto | apply backed_off_interval, IH |].
    destruct isInitial; [exact IH | apply backed_off_interval, IH].
Qed.

(** C2 (amended): in every reachable time-sync state [nextIntervalMs] lies in
    [30000, 180000].  An attempt that succeeds sets it to 30000.  An attempt
    that fails takes one back-off step (15000 more, capped at 180000, hence
    never a decrease), except that the first attempt, when it fails with an
    exception (the transport fails or the body is not JSON), leaves the
    interval as it is. *)
Theorem nextIntervalMs_invariant isInitial s :
  reachable isInitial (timeSync (this s)) ->
  let before := nextIntervalMs (timeSync (this s)) in
  let after := nextIntervalMs (timeSync (this (snd (sync isInitial s)))) in
  (PrimFloat.leb BASE_SYNC_INTERVAL_MS before = true /\
   PrimFloat.leb before MAX_SYNC_INTERVAL_MS = true) /\
  (PrimFloat.leb BASE_SYNC_INTERVAL_MS after = true /\
   PrimFloat.leb after MAX_SYNC_INTERVAL_MS = true) /\
  match attempt s with
  | Synced _ => after = BASE_SYNC_INTERVAL_MS
  | InvalidPayload _ => backoff_step before after
  | Failed _ => if isInitial then after = before else backoff_step before after
  end.
Proof.
  intros Hreach. cbv zeta.
  pose proof (reachable_interval _ _ Hreach) as Hin.
  pose proof (reachable_interval _ _ (reach_attempt _ _ Hreach)) as Hin'.
  split; [apply interval_bounds, Hin |].
  split; [apply interval_bounds, Hin' |].
  rewrite sync_timeSync.
  destruct (attempt s); [reflexivity | apply backed_off_interval, Hin |].
  destruct isInitial; [reflexivity | apply backed_off_interval, Hin].
Qed.

(** C2 as stated fails: the first attempt of a client whose server cannot be
    reached is a failure, and it leaves [nextIntervalMs] at 30000. *)
Lemma initial_failure_takes_no_backoff_step :
  ~ (forall isInitial s,
       reachable isInitial (timeSync (this s)) ->
       (forall n, attempt s <> Synced n) ->
       backoff_step (nextIntervalMs (timeSync (this s)))
         (nextIntervalMs (timeSync (this (snd (sync isInitial s)))))).
Proof.
  intros Hclaim.
  destruct (Hclaim true (Examples.started Examples.down)) as [Heq _].
  - apply (reach_constructed Examples.config).
  - intros n. vm_compute. discriminate.
  - assert (Hb : PrimFloat.eqb
                   (nextIntervalMs (timeSync (this (snd (sync true
                      (Examples.started Examples.down))))))
                   (Math_min (nextIntervalMs (timeSync (this
                      (Examples.started Examples.down))) + BACKOFF_STEP_MS)%float
                      MAX_SYNC_INTERVAL_MS) = true).
    { rewrite <- Heq. vm_compute. reflexivity. }
    vm_compute in Hb. discriminate.
Qed.

Lemma failures_keep_timeSync s s' :
  failures_since s s' ->
  offset (timeSync (this s')) = offset (timeSync (this s)) /\
  latency (timeSync (this s')) = latency (timeSync (this s)) /\
  lastCheck (timeSync (this s')) = lastCheck (timeSync (this s)).
Proof.
  induction 1 as [s | s s1 s2 Hrun IH Hgap Hfail].
  - auto.
  - rewrite sync_timeSync.
    destruct (attempt s2) as [n | j | e]; [destruct (Hfail n); reflexivity | |];
      cbn; rewrite Hgap; exact IH.
Qed.

(** C9: after a successful attempt, any run of failed attempts leaves
    [offset], [latency] and [lastCheck] as that success stored them; of the
    time-sync state only [nextIntervalMs] is written by a failed attempt. *)
Theorem failed_sync_keeps_last_good_offset isInitial s0 serverUtcMilliseconds s :
  attempt s0 = Synced serverUtcMilliseconds ->
  failures_since (snd (sync isInitial s0)) s ->
  let good := timeSync (this (snd (sync isInitial s0))) in
  offset (timeSync (this s)) = offset good /\
  latency (timeSync (this s)) = latency good /\
  lastCheck (timeSync (this s)) = lastCheck good /\
  forall s1, timeSync (this s1) = timeSync (this s) ->
    (forall n, attempt s1 <> Synced n) ->
    timeSync (this (snd (sync false s1))) =
    {| latency := latency good; offset := offset good;
       lastCheck := lastCheck good;
       nextIntervalMs := nextIntervalMs (backed_off (timeSync (this s))) |}.
Proof.
  intros _ Hrun. cbv zeta.
  destruct (failures_keep_timeSync _ _ Hrun) as (Ho & Hl & Hc).
  repeat split; try assumption.
  intros s1 Hgap Hfail. rewrite sync_timeSync.
  destruct (attempt s1) as [n | j | e]; [destruct (Hfail n); reflexivity | |];
    unfold backed_off; cbn; rewrite Hgap, Ho, Hl, Hc; reflexivity.
Qed.

(** ** Event logging *)

Section Properties.

Context {runtime : Runtime}.

Lemma bind_run {A B} (m : M A) (k : A -> M B) s :
  bind m k s =
  match m s with
  | (Normal a, s') => k a s'
  | (Throw e, s') => (Throw e, s')
  end.
Proof. reflexivity. Qed.

Lemma applyTraceSuffix_run traceKey s :
  applyTraceSuffix traceKey s =
  (Normal (fully_qualified (this s) traceKey), s).
Proof.
  unfold applyTraceSuffix, fully_qualified, bind, gets, ret, truthy.
  destruct (Defaults.traceSuffix (defaults (this s))) as [suffix |]; cbn;
    [destruct (String.eqb suffix EmptyString) |]; reflexivity.
Qed.

Lemma attributes_run p s :
  exists h,
    logTraceEvent_attributes p s =
    (Normal (attributes_of p s),
     {| this := this s;
        world := {| net := net (world s); calls := calls (world s);
                    clock := clock (world s); ticks := ticks (world s);
                    heap := h; console := console (world s);
                    timers := timers (world s) |} |}).
Proof.
  unfold logTraceEvent_attributes, attributes_of, new_object, set_property,
    set_heap, bind, gets, ret, set_world.
  destruct s as [c [n cs cl tk h co tm]]; cbn.
  destruct (LogTraceEvent.eventAttributes p);
    destruct (truthy (LogTraceEvent.eventTypeLabel p));
    destruct (truthy (LogTraceEvent.eventTypeIcon p)); cbn; eauto.
Qed.

Lemma timestamp_run p s :
  logTraceEvent_timestamp p s =
  match Defaults.eventTimestampFunc (defaults (this s)) with
  | Some f =>
      (Normal (default (f (world s)) (LogTraceEvent.eventTimestampUtc p)), s)
  | None =>
      (Normal (default (clock (world s) (ticks (world s))
                        + offset (timeSync (this s)))%float
                 (LogTraceEvent.eventTimestampUtc p)),
       {| this := this s;
          world := {| net := net (world s); calls := calls (world s);
                      clock := clock (world s); ticks := S (ticks (world s));
                      heap := heap (world s); console := console (world s);
                      timers := timers (world s) |} |})
  end.
Proof.
  unfold logTraceEvent_timestamp, now, Date_now, bind, gets, ret, set_world.
  cbn.
  destruct (Defaults.eventTimestampFunc (defaults (this s)));
    destruct (LogTraceEvent.eventTimestampUtc p); reflexivity.
Qed.

Lemma resolved_unfold p s :
  resolved p s =
  snd (logTraceEvent_timestamp p (snd (logTraceEvent_attributes p s))).
Proof.
  unfold resolved. rewrite bind_run.
  destruct (attributes_run p s) as [h ->]. reflexivity.
Qed.

Lemma resolved_quiet p s : quiet s (resolved p s).
Proof.
  rewrite resolved_unfold, timestamp_run.
  destruct (attributes_run p s) as [h ->]. cbn.
  destruct (Defaults.eventTimestampFunc (defaults (this s))); cbn;
    repeat split.
Qed.

Lemma resolved_heap p s :
  heap (world (resolved p s)) =
  heap (world (snd (logTraceEvent_attributes p s))).
Proof.
  rewrite resolved_unfold, timestamp_run.
  destruct (attributes_run p s) as [h ->]. cbn.
  destruct (Defaults.eventTimestampFunc (defaults (this s))); reflexivity.
Qed.

Lemma timestamp_fst p s :
  fst (logTraceEvent_timestamp p (snd (logTraceEvent_attributes p s))) =
  Normal (effective_timestamp p s).
Proof.
  rewrite timestamp_run. unfold effective_timestamp.
  destruct (attributes_run p s) as [h ->]. cbn.
  destruct (Defaults.eventTimestampFunc (defaults (this s)));
    destruct (LogTraceEvent.eventTimestampUtc p); reflexivity.
Qed.

Lemma out_of_range_source t :
  js_gt t 2565000000000 || js_lt t 1665000000000 = out_of_range t.
Proof. unfold out_of_range. apply orb_comm. Qed.

Lemma registration_error_message reply :
  includes "registerTrace err:" (message (registration_error reply)) = true.
Proof.
  destruct reply as [e | r]; cbn.
  - destruct (includes _ (message e)) eqn:He; [exact He | reflexivity].
  - reflexivity.
Qed.

(** Lines 247-276, by cases on the cache and on the reply. *)
Lemma register_run key s :
  logTraceEvent_register key s =
  if bool_decide (key ∈ registeredTraces (this s)) then (Normal tt, s)
  else
    let r := registration_request (this s) key in
    if accepted (next_reply s r)
    then (Normal tt, {| this := caching key (this s);
                        world := after_call r (world s) |})
    else (Throw (registration_error (next_reply s r)),
          {| this := this s; world := after_call r (world s) |}).
Proof.
  unfold logTraceEvent_register. rewrite bind_run. unfold gets at 1.
  destruct (bool_decide _); [reflexivity |].
  unfold next_reply, registration_request, accepted, registration_error,
    try_catch, bind, request, json_or_empty, set_registeredTraces, set_this,
    gets, set_world, ret, throw.
  cbn.
  destruct (net (world s) _ _) as [e | r]; cbn.
  - destruct (includes _ (message e)); reflexivity.
  - destruct (400 <=? statusCode r)%Z; cbn; [| reflexivity].
    destruct (body_json r); reflexivity.
Qed.

(** Lines 288-313: one call is issued, whatever comes of it. *)
Lemma submit_run payload s :
  exists r,
    logTraceEvent_submit payload s =
    (r, {| this := this s;
           world := after_call (submission_request (this s) payload)
                      (world s) |}).
Proof.
  unfold logTraceEvent_submit, submission_request, after_call, try_catch,
    bind, request, json_or_empty, json_of, gets, set_world, ret, throw.
  cbn.
  destruct (net (world s) _ _) as [e | r]; cbn.
  - destruct (error_field e); eauto.
  - destruct (400 <=? statusCode r)%Z; cbn.
    + destruct (body_json r) as [j | e]; cbn;
        [destruct (property j "error") as [[]|] |]; cbn; eauto.
    + destruct (body_json r) as [j | e]; cbn; eauto.
      destruct (error_field e); eauto.
Qed.

(** The [try] block of [logTraceEvent], phase by phase. *)
Lemma logTraceEvent_try_run p s :
  logTraceEvent_try p s =
  let key := fully_qualified (this s) (LogTraceEvent.traceKey p) in
  let r := registration_request (this s) key in
  if out_of_range (effective_timestamp p s)
  then (Throw (out_of_range_error
                 (Number_toString (effective_timestamp p s))),
        resolved p s)
  else
    match effective_sender p (this s) with
    | None => (Throw (new_Error "eventSender is required"), resolved p s)
    | Some _ =>
        if bool_decide (key ∈ registeredTraces (this s))
        then logTraceEvent_submit (event_payload p s) (resolved p s)
        else if accepted (next_reply s r)
        then logTraceEvent_submit (event_payload p s)
               {| this := caching key (this s);
                  world := after_call r (world (resolved p s)) |}
        else (Throw (registration_error (next_reply s r)),
              {| this := this s;
                 world := after_call r (world (resolved p s)) |})
    end.
Proof.
  pose proof (resolved_unfold p s) as Hres.
  pose proof (timestamp_fst p s) as Hts.
  pose proof (resolved_quiet p s) as (Hthis & Hnet & Hcalls).
  unfold logTraceEvent_try, event_payload. cbv zeta.
  rewrite bind_run, applyTraceSuffix_run, bind_run.
  destruct (attributes_run p s) as [h Hh]. rewrite Hh in *. cbn [snd] in *.
  rewrite bind_run.
  destruct (logTraceEvent_timestamp p _) as [r s2]. cbn in Hres, Hts.
  subst r s2.
  rewrite bind_run, out_of_range_source.
  destruct (out_of_range (effective_timestamp p s)); [reflexivity |].
  unfold ret at 1. rewrite bind_run. unfold gets at 1.
  rewrite bind_run, Hthis. unfold effective_sender.
  destruct (or_else _ _); [| reflexivity].
  unfold ret at 1. rewrite bind_run, register_run, Hthis.
  unfold next_reply. rewrite Hnet, Hcalls.
  destruct (bool_decide _); [reflexivity |].
  destruct (accepted _); reflexivity.
Qed.

Lemma routeError_run onError e s :
  routeError onError e s =
  match selected_handler onError (this s) with
  | Some handler => handled_by handler e s
  | None => (Throw e, s)
  end.
Proof.
  unfold routeError, selected_handler, handled_by, with_heap, callback,
    set_heap, bind, gets, ret, set_world, throw.
  destruct onError as [perCall |]; cbn.
  - destruct (perCall e (heap (world s))) as [[[] | e'] h]; reflexivity.
  - destruct (Defaults.onError (defaults (this s))) as [clientWide |]; cbn;
      [| reflexivity].
    destruct (clientWide e (heap (world s))) as [[[] | e'] h]; reflexivity.
Qed.

Lemma routeError_quiet onError e s : quiet s (snd (routeError onError e s)).
Proof.
  rewrite routeError_run. unfold handled_by.
  destruct (selected_handler onError (this s)) as [handler |];
    [| repeat split].
  destruct (handler e (heap (world s))) as [[[] | e'] h]; repeat split.
Qed.

(** What the [try] block of [logTraceEvent] does to the client object and to
    the list of calls. *)
Lemma logTraceEvent_try_effects p s :
  let s' := snd (logTraceEvent_try p s) in
  let key := fully_qualified (this s) (LogTraceEvent.traceKey p) in
  let reg := registration_request (this s) key in
  let ev := submission_request (this s) (event_payload p s) in
  net (world s') = net (world s) /\
  heap (world s') = heap (world (resolved p s)) /\
  (this s', calls (world s')) =
  if passes_validation p s then
    if bool_decide (key ∈ registeredTraces (this s))
    then (this s, (calls (world s) ++ [ev])%list)
    else if accepted (next_reply s reg)
    then (caching key (this s), (calls (world s) ++ [reg; ev])%list)
    else (this s, (calls (world s) ++ [reg])%list)
  else (this s, calls (world s)).
Proof.
  cbv zeta. rewrite logTraceEvent_try_run. cbv zeta.
  pose proof (resolved_quiet p s) as (Hthis & Hnet & Hcalls).
  unfold passes_validation.
  destruct (out_of_range (effective_timestamp p s)); cbn [negb andb snd];
    [rewrite Hthis, Hnet, Hcalls; auto |].
  destruct (effective_sender p (this s)) as [sender |] eqn:Hsender;
    [| cbn; rewrite Hthis, Hnet, Hcalls; auto].
  rewrite (bool_decide_true (is_Some (Some sender))) by done.
  destruct (bool_decide _).
  - destruct (submit_run (event_payload p s) (resolved p s)) as [r ->].
    cbn. rewrite Hthis, Hnet, Hcalls. auto.
  - destruct (accepted _).
    + match goal with |- context [logTraceEvent_submit ?pl ?st] =>
        destruct (submit_run pl st) as [r ->] end.
      cbn. rewrite Hnet, Hcalls, <- app_assoc. auto.
    + cbn. rewrite Hnet, Hcalls. auto.
Qed.

(** The same for the whole method: the handlers send nothing. *)
Lemma logTraceEvent_effects p s :
  let s' := snd (logTraceEvent p s) in
  let key := fully_qualified (this s) (LogTraceEvent.traceKey p) in
  let reg := registration_request (this s) key in
  let ev := submission_request (this s) (event_payload p s) in
  net (world s') = net (world s) /\
  (this s', calls (world s')) =
  if passes_validation p s then
    if bool_decide (key ∈ registeredTraces (this s))
    then (this s, (calls (world s) ++ [ev])%list)
    else if accepted (next_reply s reg)
    then (caching key (this s), (calls (world s) ++ [reg; ev])%list)
    else (this s, (calls (world s) ++ [reg])%list)
  else (this s, calls (world s)).
Proof.
  cbv zeta.
  destruct (logTraceEvent_try_effects p s) as (Hnet & _ & Heffect).
  unfold logTraceEvent, try_catch.
  destruct (logTraceEvent_try p s) as [[v | e] s1]; cbn [snd] in *;
    [auto |].
  destruct (routeError_quiet (LogTraceEvent.onError p) e s1)
    as (Hthis' & Hnet' & Hcalls').
  rewrite Hthis', Hnet', Hcalls'. auto.
Qed.

(** The calls one [logTraceEvent] issues. *)
Lemma issued_logTraceEvent p s :
  let key := fully_qualified (this s) (LogTraceEvent.traceKey p) in
  let reg := registration_request (this s) key in
  let ev := submission_request (this s) (event_payload p s) in
  issued s (snd (logTraceEvent p s)) =
  if passes_validation p s then
    if bool_decide (key ∈ registeredTraces (this s)) then [ev]
    else if accepted (next_reply s reg) then [reg; ev]
    else [reg]
  else [].
Proof.
  cbv zeta. destruct (logTraceEvent_effects p s) as (_ & Hall).
  unfold issued.
  repeat match type of Hall with
         | context [if ?b then _ else _] => destruct b
         end;
    injection Hall as _ ->; rewrite ?drop_app_length, ?drop_all; reflexivity.
Qed.

Lemma submissions_carry_payload p s r payload :
  In r (issued s (snd (logTraceEvent p s))) ->
  body r = EventBody payload ->
  payload = event_payload p s.
Proof.
  rewrite issued_logTraceEvent. cbv zeta.
  destruct (passes_validation p s); [| intros []].
  destruct (bool_decide _); [| destruct (accepted _)]; cbn [In];
    intros Hin Hbody; intuition subst; cbn in Hbody; congruence.
Qed.

(** The label and the icon are written into the object the caller passed. *)
Lemma attributes_written p s o label icon :
  LogTraceEvent.eventAttributes p = Some o ->
  LogTraceEvent.eventTypeLabel p = Some label -> label <> EmptyString ->
  LogTraceEvent.eventTypeIcon p = Some icon -> icon <> EmptyString ->
  object_at (heap (world (snd (logTraceEvent_attributes p s)))) o =
  <["eventTypeIcon" := JStr icon]>
    (<["eventTypeLabel" := JStr label]> (object_at (heap (world s)) o)).
Proof.
  intros Ho Hlabel Hlabel' Hicon Hicon'.
  unfold logTraceEvent_attributes, set_property, set_heap, bind, gets, ret,
    set_world, truthy.
  rewrite Ho, Hlabel, Hicon.
  apply String.eqb_neq in Hlabel', Hicon'. rewrite Hlabel', Hicon'. cbn.
  unfold object_at. rewrite !lookup_insert_eq. reflexivity.
Qed.

(** C4: a call of [logTraceEvent] whose effective timestamp is strictly below
    1,665,000,000,000 or strictly above 2,565,000,000,000 raises the
    out-of-range error with no call issued, neither by then nor by the end of
    the method.  A timestamp within the bounds passes the check: with a sender
    at hand the call goes on to the network.  The bounds themselves are
    within: 1,664,999,999,999 is out of range, 1,665,000,000,000 is not. *)
Theorem timestamp_window_checked_before_network p s :
  let t := effective_timestamp p s in
  (out_of_range t = true ->
   fst (logTraceEvent_try p s) =
     Throw (out_of_range_error (Number_toString t)) /\
   calls (world (snd (logTraceEvent_try p s))) = calls (world s) /\
   calls (world (snd (logTraceEvent p s))) = calls (world s)) /\
  (out_of_range t = false ->
   is_Some (effective_sender p (this s)) ->
   issued s (snd (logTraceEvent p s)) <> []) /\
  out_of_range 1664999999999 = true /\
  out_of_range 1665000000000 = false /\
  out_of_range 2565000000000 = false /\
  out_of_range 2565000000001 = true.
Proof.
  cbv zeta.
  destruct (logTraceEvent_try_effects p s) as (_ & _ & Htry).
  destruct (logTraceEvent_effects p s) as (_ & Hall).
  unfold passes_validation in Htry, Hall.
  split; [| split; [| repeat split; reflexivity]].
  - intros Hout. rewrite Hout in Htry, Hall. cbn [negb andb] in Htry, Hall.
    split; [| split; congruence].
    rewrite logTraceEvent_try_run. cbv zeta. rewrite Hout. reflexivity.
  - intros Hin Hsender. rewrite Hin in Hall.
    rewrite bool_decide_true in Hall by exact Hsender.
    cbn [negb andb] in Hall.
    unfold issued.
    repeat match type of Hall with
           | context [if ?b then _ else _] => destruct b
           end;
      injection Hall as _ ->; rewrite drop_app_length; discriminate.
Qed.

(** C5: an error raised in the [try] block of [logTraceEvent] or of
    [deleteTrace] goes to the per-call handler if the caller gave one, whether
    or not a client-wide handler is configured; else to the client-wide
    handler if one is configured; else the method rejects with the error.
    The handler picked is the only one that runs. *)
Theorem error_routing_precedence :
  (forall p s e s',
     logTraceEvent_try p s = (Throw e, s') ->
     routed (LogTraceEvent.onError p) e s' (logTraceEvent p s)) /\
  (forall p s e s',
     deleteTrace_try p s = (Throw e, s') ->
     routed (DeleteTrace.onError p) e s' (deleteTrace p s)).
Proof.
  split; intros p s e s' Hraised;
    unfold logTraceEvent, deleteTrace, try_catch, routed;
    rewrite Hraised, routeError_run; unfold selected_handler.
  - destruct (LogTraceEvent.onError p); [reflexivity |].
    destruct (Defaults.onError (defaults (this s'))); reflexivity.
  - destruct (DeleteTrace.onError p); [reflexivity |].
    destruct (Defaults.onError (defaults (this s'))); reflexivity.
Qed.

(** C10: when an error raised in [logTraceEvent] or [deleteTrace] is taken by
    a handler, per-call or client-wide, and the handler returns, the method
    resolves with [undefined], which is no response body. *)
Theorem absorbed_error_resolves_undefined :
  (forall p s e s' handler h,
     logTraceEvent_try p s = (Throw e, s') ->
     selected_handler (LogTraceEvent.onError p) (this s') = Some handler ->
     handler e (heap (world s')) = (Normal tt, h) ->
     logTraceEvent p s = (Normal Undefined, with_heap h s') /\
     forall j, fst (logTraceEvent p s) <> Normal (Parsed j)) /\
  (forall p s e s' handler h,
     deleteTrace_try p s = (Throw e, s') ->
     selected_handler (DeleteTrace.onError p) (this s') = Some handler ->
     handler e (heap (world s')) = (Normal tt, h) ->
     deleteTrace p s = (Normal Undefined, with_heap h s') /\
     forall j, fst (deleteTrace p s) <> Normal (Parsed j)).
Proof.
  split; intros p s e s' handler h Hraised Hpicked Hreturns;
    unfold logTraceEvent, deleteTrace, try_catch;
    rewrite Hraised, routeError_run, Hpicked; unfold handled_by;
    rewrite Hreturns; (split; [reflexivity | intros j; discriminate]).
Qed.

(** C3 (amended): take two calls of [logTraceEvent] in sequence for the same
    fully-qualified key, the key not being cached before the first.  If the
    first call passes the checks and the server accepts its registration (a
    status below 400), the key is in the cache after the first call, and if
    the second call passes the timestamp and sender checks, the two calls
    issue one registration and two event submissions.  If the registration of
    a call fails (the transport fails or the status is 400 or more), the
    [try] block raises an error whose message carries [registerTrace err:],
    the key stays out of the cache, and a next call for the key that passes
    the checks starts with a registration. *)
Theorem registration_once_per_key p1 p2 s0 :
  let key := fully_qualified (this s0) (LogTraceEvent.traceKey p1) in
  let reg := registration_request (this s0) key in
  let s1 := snd (logTraceEvent p1 s0) in
  let s2 := snd (logTraceEvent p2 s1) in
  fully_qualified (this s0) (LogTraceEvent.traceKey p2) = key ->
  (passes_validation p1 s0 = true ->
   key ∉ registeredTraces (this s0) ->
   accepted (next_reply s0 reg) = true ->
   key ∈ registeredTraces (this s1) /\
   (passes_validation p2 s1 = true ->
    count is_registration (issued s0 s2) = 1 /\
    count is_submission (issued s0 s2) = 2)) /\
  (passes_validation p1 s0 = true ->
   key ∉ registeredTraces (this s0) ->
   accepted (next_reply s0 reg) = false ->
   (exists e, fst (logTraceEvent_try p1 s0) = Throw e /\
              includes "registerTrace err:" (message e) = true) /\
   (key ∉ registeredTraces (this s1)) /\
   issued s0 s1 = [reg] /\
   (passes_validation p2 s1 = true ->
    exists rest, issued s1 s2 = reg :: rest)).
Proof.
  cbv zeta. intros Hsame.
  pose proof (issued_logTraceEvent p1 s0) as Hissued1.
  pose proof (issued_logTraceEvent p2 (snd (logTraceEvent p1 s0))) as Hissued2.
  destruct (logTraceEvent_effects p1 s0) as (Hnet1 & Heffect1).
  destruct (logTraceEvent_effects p2 (snd (logTraceEvent p1 s0)))
    as (_ & Heffect2).
  cbv zeta in *.
  set (key := fully_qualified (this s0) (LogTraceEvent.traceKey p1)) in *.
  set (s1 := snd (logTraceEvent p1 s0)) in *.
  set (s2 := snd (logTraceEvent p2 s1)) in *.
  split.
  - intros Hvalid1 Hfresh Haccepted.
    rewrite Hvalid1, (bool_decide_false _ Hfresh), Haccepted in Heffect1.
    injection Heffect1 as Hthis1 Hcalls1.
    assert (Hcached : key ∈ registeredTraces (this s1)).
    { rewrite Hthis1. cbn. apply elem_of_union_l, elem_of_singleton.
      reflexivity. }
    split; [exact Hcached |]. intros Hvalid2.
    rewrite Hvalid2 in Heffect2.
    assert (Hkey2 : fully_qualified (this s1) (LogTraceEvent.traceKey p2) = key).
    { rewrite Hthis1. exact Hsame. }
    rewrite Hkey2, (bool_decide_true _ Hcached) in Heffect2.
    injection Heffect2 as _ Hcalls2.
    unfold issued. rewrite Hcalls2, Hcalls1, <- app_assoc, drop_app_length.
    split; reflexivity.
  - intros Hvalid1 Hfresh Hrefused.
    rewrite Hvalid1, (bool_decide_false _ Hfresh), Hrefused in Heffect1, Hissued1.
    injection Heffect1 as Hthis1 Hcalls1.
    split; [| split; [| split]].
    + exists (registration_error
                (next_reply s0 (registration_request (this s0) key))).
      split; [| apply registration_error_message].
      rewrite logTraceEvent_try_run. cbv zeta. fold key.
      unfold passes_validation in Hvalid1.
      apply andb_prop in Hvalid1 as [Hrange Hsender].
      apply negb_true_iff in Hrange. apply bool_decide_eq_true in Hsender.
      destruct Hsender as [sender Hsender].
      rewrite Hrange, Hsender, (bool_decide_false _ Hfresh), Hrefused.
      reflexivity.
    + rewrite Hthis1. exact Hfresh.
    + exact Hissued1.
    + intros Hvalid2. rewrite Hvalid2 in Hissued2.
      assert (Hkey2 : fully_qualified (this s1) (LogTraceEvent.traceKey p2) = key).
      { rewrite Hthis1. exact Hsame. }
      rewrite Hkey2, Hthis1, (bool_decide_false _ Hfresh) in Hissued2.
      destruct (accepted _); eauto.
Qed.

(** C7 (amended): when a call of [logTraceEvent] passes a non-empty
    [eventTypeLabel] and a non-empty [eventTypeIcon] together with an
    attribute object, the two values are written into that very object under
    the keys [eventTypeLabel] and [eventTypeIcon], and every event submission
    of the call carries the content of the object so written; a call that
    returns normally has made such a submission. *)
Theorem label_and_icon_written_in_place p s o label icon :
  LogTraceEvent.eventAttributes p = Some o ->
  LogTraceEvent.eventTypeLabel p = Some label -> label <> EmptyString ->
  LogTraceEvent.eventTypeIcon p = Some icon -> icon <> EmptyString ->
  let written :=
    <["eventTypeIcon" := JStr icon]>
      (<["eventTypeLabel" := JStr label]> (object_at (heap (world s)) o)) in
  object_at (heap (world (snd (logTraceEvent_try p s)))) o = written /\
  (forall r payload,
     In r (issued s (snd (logTraceEvent p s))) ->
     body r = EventBody payload ->
     EventPayload.eventAttributes payload = written /\
     EventPayload.eventAttributes payload !! "eventTypeLabel"
       = Some (JStr label) /\
     EventPayload.eventAttributes payload !! "eventTypeIcon"
       = Some (JStr icon)) /\
  (forall v,
     fst (logTraceEvent p s) = Normal (Parsed v) ->
     In (submission_request (this s) (event_payload p s))
        (issued s (snd (logTraceEvent p s)))).
Proof.
  intros Ho Hlabel Hlabel' Hicon Hicon'. cbv zeta.
  pose proof (attributes_written p s o label icon Ho Hlabel Hlabel' Hicon Hicon')
    as Hwritten.
  destruct (logTraceEvent_try_effects p s) as (_ & Hheap & _).
  split; [| split].
  - rewrite Hheap, resolved_heap. exact Hwritten.
  - intros r payload Hin Hbody.
    rewrite (submissions_carry_payload p s r payload Hin Hbody).
    unfold event_payload, attributes_of. cbn. rewrite Ho, resolved_heap, Hwritten.
    split; [reflexivity |].
    split; [| apply lookup_insert_eq].
    rewrite lookup_insert_ne by discriminate. apply lookup_insert_eq.
  - intros v Hnormal. rewrite issued_logTraceEvent. cbv zeta.
    unfold logTraceEvent, try_catch in Hnormal.
    rewrite logTraceEvent_try_run in Hnormal. cbv zeta in Hnormal.
    unfold passes_validation.
    destruct (out_of_range _); cbn [negb andb].
    { rewrite routeError_run in Hnormal. unfold handled_by in Hnormal.
      destruct (selected_handler _ _) as [handler |]; [| discriminate].
      destruct (handler _ _) as [[[] | e'] h]; discriminate. }
    destruct (effective_sender p (this s)) as [sender |].
    2: { rewrite routeError_run in Hnormal. unfold handled_by in Hnormal.
         destruct (selected_handler _ _) as [handler |]; [| discriminate].
         destruct (handler _ _) as [[[] | e'] h]; discriminate. }
    rewrite bool_decide_true by done.
    destruct (bool_decide _); [left; reflexivity |].
    destruct (accepted _); [right; left; reflexivity |].
    rewrite routeError_run in Hnormal. unfold handled_by in Hnormal.
    destruct (selected_handler _ _) as [handler |]; [| discriminate].
    destruct (handler _ _) as [[[] | e'] h]; discriminate.
Qed.

(** C8 (amended): the sender of a call of [logTraceEvent] is the explicit
    [eventSender] when that is given and not empty, otherwise the configured
    default sender; every event submission of the call carries it.  When the
    explicit sender is absent or empty and no default is configured, the
    [try] block raises an error with no call issued, and with the timestamp
    in range that error is [eventSender is required]. *)
Theorem sender_resolution p s :
  (forall x, LogTraceEvent.eventSender p = Some x -> x <> EmptyString ->
     effective_sender p (this s) = Some x) /\
  ((LogTraceEvent.eventSender p = None
    \/ LogTraceEvent.eventSender p = Some EmptyString) ->
   effective_sender p (this s) = Defaults.sender (defaults (this s))) /\
  (forall sender r payload,
     effective_sender p (this s) = Some sender ->
     In r (issued s (snd (logTraceEvent p s))) ->
     body r = EventBody payload ->
     EventPayload.eventSender payload = sender) /\
  (effective_sender p (this s) = None ->
     (exists e, fst (logTraceEvent_try p s) = Throw e /\
        (out_of_range (effective_timestamp p s) = false ->
         e = new_Error "eventSender is required")) /\
     calls (world (snd (logTraceEvent_try p s))) = calls (world s) /\
     calls (world (snd (logTraceEvent p s))) = calls (world s)).
Proof.
  split; [| split; [| split]].
  - intros x Hx Hne. unfold effective_sender, or_else, truthy. rewrite Hx.
    apply String.eqb_neq in Hne. rewrite Hne. reflexivity.
  - intros [Hx | Hx]; unfold effective_sender, or_else, truthy; rewrite Hx;
      reflexivity.
  - intros sender r payload Hsender Hin Hbody.
    rewrite (submissions_carry_payload p s r payload Hin Hbody).
    cbn. rewrite Hsender. reflexivity.
  - intros Hnone.
    destruct (logTraceEvent_try_effects p s) as (_ & _ & Htry).
    destruct (logTraceEvent_effects p s) as (_ & Hall).
    unfold passes_validation in Htry, Hall.
    rewrite Hnone, bool_decide_false, andb_false_r in Htry, Hall
      by (intros []; discriminate).
    split; [| split; congruence].
    rewrite logTraceEvent_try_run. cbv zeta. rewrite Hnone.
    destruct (out_of_range _); eexists; (split; [reflexivity |]);
      [discriminate | reflexivity].
Qed.

(** ** Trace deletion *)

(** Lines 343-388, when the [try] block returns. *)
Lemma deleteTrace_try_success p s v s' :
  deleteTrace_try p s = (Normal v, s') ->
  registeredTraces (this s') =
  registeredTraces (this s)
    ∖ {[ toUpperCase (fully_qualified (this s) (DeleteTrace.traceKey p)) ]}.
Proof.
  unfold deleteTrace_try. rewrite bind_run. unfold gets at 1.
  rewrite bind_run.
  destruct (negb (truthy (apiKey (this s)))); [discriminate |].
  unfold ret at 1. rewrite bind_run.
  destruct (negb (truthy (Some (DeleteTrace.traceKey p)))); [discriminate |].
  unfold ret at 1. rewrite bind_run, applyTraceSuffix_run.
  generalize (toUpperCase (fully_qualified (this s) (DeleteTrace.traceKey p))).
  intros key.
  unfold try_catch, bind, request, json_or_empty, json_of,
    set_registeredTraces, set_this, gets, set_world, ret, throw.
  cbn.
  destruct (net (world s) _ _) as [e | r]; cbn.
  { destruct (error_field e); discriminate. }
  destruct (400 <=? statusCode r)%Z; cbn.
  { destruct (body_json r) as [j | e]; cbn;
      [destruct (property j "error") as [[]|] |]; discriminate. }
  destruct (bool_decide (key ∈ registeredTraces (this s))) eqn:Hcached; cbn;
    (destruct (body_json r) as [j | e]; cbn;
     [| destruct (error_field e); discriminate]);
    intros [= _ <-]; cbn; [reflexivity |].
  apply bool_decide_eq_false in Hcached.
  apply set_eq. intros x. rewrite elem_of_difference, elem_of_singleton.
  split; [intros Hx; split; [exact Hx | congruence] | tauto].
Qed.

(** Neither public method writes the time-sync state: between two attempts of
    the loop it is as the last attempt left it. *)
Lemma logTraceEvent_keeps_timeSync p s :
  timeSync (this (snd (logTraceEvent p s))) = timeSync (this s).
Proof.
  destruct (logTraceEvent_effects p s) as (_ & Heffect).
  repeat match type of Heffect with
         | context [if ?b then _ else _] => destruct b
         end;
    injection Heffect as -> _; reflexivity.
Qed.

Lemma deleteTrace_keeps_timeSync p s :
  timeSync (this (snd (deleteTrace p s))) = timeSync (this s).
Proof.
  assert (Htry : timeSync (this (snd (deleteTrace_try p s)))
                 = timeSync (this s)).
  { unfold deleteTrace_try. rewrite bind_run. unfold gets at 1.
    rewrite bind_run.
    destruct (negb (truthy (apiKey (this s)))); [reflexivity |].
    unfold ret at 1. rewrite bind_run.
    destruct (negb (truthy (Some (DeleteTrace.traceKey p)))); [reflexivity |].
    unfold ret at 1. rewrite bind_run, applyTraceSuffix_run.
    generalize (toUpperCase
                  (fully_qualified (this s) (DeleteTrace.traceKey p))).
    intros key.
    unfold try_catch, bind, request, json_or_empty, json_of,
      set_registeredTraces, set_this, gets, set_world, ret, throw.
    cbn.
    destruct (net (world s) _ _) as [e | r]; cbn.
    { destruct (error_field e); reflexivity. }
    destruct (400 <=? statusCode r)%Z; cbn.
    { destruct (body_json r) as [j | e]; cbn;
        [destruct (property j "error") as [[]|] |]; reflexivity. }
    destruct (bool_decide (key ∈ registeredTraces (this s))); cbn;
      (destruct (body_json r) as [j | e]; cbn;
       [| destruct (error_field e)]); reflexivity. }
  unfold deleteTrace, try_catch.
  destruct (deleteTrace_try p s) as [[v | e] s1]; cbn [snd] in *;
    [exact Htry |].
  destruct (routeError_quiet (DeleteTrace.onError p) e s1) as (-> & _).
  exact Htry.
Qed.


End Properties.

(** ** The constructor and the loop, further *)

Lemma strip_trailing_slash_appended h :
  strip_trailing_slash (h +:+ "/") = h.
Proof.
  induction h as [| c rest IH]; [reflexivity |].
  destruct rest as [| d rest']; [reflexivity |].
  change (String c (strip_trailing_slash (String d rest' +:+ "/"))
          = String c (String d rest')).
  rewrite IH. reflexivity.
Qed.

Lemma strip_trailing_slash_other h :
  (forall h', h <> h' +:+ "/") -> strip_trailing_slash h = h.
Proof.
  induction h as [| c rest IH]; [reflexivity |].
  intros Hend. destruct rest as [| d rest'].
  - cbn. destruct (Ascii.eqb c "/") eqn:Hc; [| reflexivity].
    apply Ascii.eqb_eq in Hc. subst c. destruct (Hend EmptyString). reflexivity.
  - change (String c (strip_trailing_slash (String d rest'))
            = String c (String d rest')).
    rewrite IH; [reflexivity |].
    intros h' Hh'. apply (Hend (String c h')). cbn. rewrite Hh'. reflexivity.
Qed.

(** X1: the constructor takes exactly one trailing slash off the server
    address and leaves an address without a trailing slash as it is; the new
    client has an empty registration cache, offset 0 and the base interval. *)
Theorem constructor_normalizes_host config :
  (forall h, Config.hellesHost config = h +:+ "/" ->
     hellesHost (constructor config) = h) /\
  ((forall h, Config.hellesHost config <> h +:+ "/") ->
     hellesHost (constructor config) = Config.hellesHost config) /\
  registeredTraces (constructor config) = ∅ /\
  timeSync (constructor config)
  = {| latency := None; offset := 0; lastCheck := None;
       nextIntervalMs := BASE_SYNC_INTERVAL_MS |}.
Proof.
  split; [| split; [| split; reflexivity]].
  - intros h Hh. cbn. rewrite Hh. apply strip_trailing_slash_appended.
  - intros Hend. cbn. apply strip_trailing_slash_other, Hend.
Qed.

(** X2: whatever comes of an attempt of the loop, also when the first attempt
    throws, it arms exactly one timer, with the interval the attempt has left
    in the time-sync state. *)
Theorem sync_rearms_timer isInitial s :
  timers (world (snd (sync isInitial s)))
  = (timers (world s)
     ++ [nextIntervalMs (timeSync (this (snd (sync isInitial s))))])%list.
Proof.
  unfold sync, try_finally, try_catch, bind, request, json_of, Date_now,
    incrementBackoff, console_warn, setTimeout, set_timeSync, set_this, gets,
    set_world, ret, throw.
  cbn.
  destruct (net (world s) _ _) as [e | r]; cbn.
  - destruct isInitial; reflexivity.
  - destruct (body_json r) as [j | e]; cbn.
    + destruct (property j "serverUtcMilliseconds") as [[]|]; reflexivity.
    + destruct isInitial; reflexivity.
Qed.

(** X3: an attempt of the loop issues one call, [GET /time] on the server
    address, and leaves the address, the API key, the defaults, the
    registration cache and the caller's objects as they are. *)
Theorem sync_sends_one_time_request isInitial s :
  let s' := snd (sync isInitial s) in
  calls (world s') = (calls (world s) ++ [time_request (this s)])%list /\
  hellesHost (this s') = hellesHost (this s) /\
  apiKey (this s') = apiKey (this s) /\
  defaults (this s') = defaults (this s) /\
  registeredTraces (this s') = registeredTraces (this s) /\
  heap (world s') = heap (world s).
Proof.
  unfold time_request, sync, try_finally, try_catch, bind, request, json_of,
    Date_now, incrementBackoff, console_warn, setTimeout, set_timeSync,
    set_this, gets, set_world, ret, throw.
  cbn.
  destruct (net (world s) _ _) as [e | r]; cbn.
  - destruct isInitial; repeat split.
  - destruct (body_json r) as [j | e]; cbn.
    + destruct (property j "serverUtcMilliseconds") as [[]|]; repeat split.
    + destruct isInitial; repeat split.
Qed.

(** X4: an attempt after the first never throws.  The first attempt throws
    exactly when the transport fails or the body is not JSON, and what it
    throws then is the health-check error, with nothing written to the
    console.  A body without a numeric [serverUtcMilliseconds] makes the first
    attempt back off like any later attempt, and warn on the console; a body
    with one makes it return without a warning. *)
Theorem sync_throws_only_on_initial_exception s :
  fst (sync false s) = Normal tt /\
  ((exists thrown, fst (sync true s) = Throw thrown) <->
   (exists e, attempt s = Failed e)) /\
  (forall e, attempt s = Failed e ->
     fst (sync true s)
     = Throw (new_Error "Helles startup connection health check failed") /\
     console (world (snd (sync true s))) = console (world s)) /\
  (forall j, attempt s = InvalidPayload j ->
     fst (sync true s) = Normal tt /\
     timeSync (this (snd (sync true s))) = backed_off (timeSync (this s)) /\
     console (world (snd (sync true s)))
     = (console (world s)
        ++ [("HellesClient time sync: invalid /time response payload",
             Some j)])%list) /\
  (forall n, attempt s = Synced n ->
     fst (sync true s) = Normal tt /\
     console (world (snd (sync true s))) = console (world s)).
Proof.
  split; [| split; [| split; [| split]]].
  - rewrite sync_completes. destruct (attempt s); reflexivity.
  - rewrite sync_completes. split.
    + intros [thrown Hthrown]. destruct (attempt s) as [n | j | e];
        [discriminate | discriminate | exists e; reflexivity].
    + intros [e ->]. eexists. reflexivity.
  - intros e He. split; [rewrite sync_completes, He; reflexivity |].
    revert He.
    unfold attempt, next_reply, outcome_of, sync, try_finally, try_catch,
      bind, request, json_of, Date_now, setTimeout, gets, set_world, ret,
      throw.
    cbn.
    destruct (net (world s) _ _) as [e0 | r]; cbn; [reflexivity |].
    destruct (body_json r) as [j | e0]; cbn; [| reflexivity].
    destruct (property j "serverUtcMilliseconds") as [[]|]; discriminate.
  - intros j Hj.
    split; [rewrite sync_completes, Hj; reflexivity |].
    split; [rewrite sync_timeSync, Hj; reflexivity |].
    revert Hj.
    unfold attempt, next_reply, outcome_of, sync, try_finally, try_catch,
      bind, request, json_of, Date_now, incrementBackoff, console_warn,
      setTimeout, set_timeSync, set_this, gets, set_world, ret, throw.
    cbn.
    destruct (net (world s) _ _) as [e0 | r]; cbn; [discriminate |].
    destruct (body_json r) as [j0 | e0]; cbn; [| discriminate].
    destruct (property j0 "serverUtcMilliseconds") as [[]|];
      intros [= <-]; reflexivity.
  - intros n Hn. split; [rewrite sync_completes, Hn; reflexivity |].
    revert Hn.
    unfold attempt, next_reply, outcome_of, sync, try_finally, try_catch,
      bind, request, json_of, Date_now, incrementBackoff, console_warn,
      setTimeout, set_timeSync, set_this, gets, set_world, ret, throw.
    cbn.
    destruct (net (world s) _ _) as [e0 | r]; cbn; [discriminate |].
    destruct (body_json r) as [j0 | e0]; cbn; [| discriminate].
    destruct (property j0 "serverUtcMilliseconds") as [[]|];
      try discriminate; reflexivity.
Qed.

Lemma incrementBackoff_run s :
  incrementBackoff s
  = (Normal tt,
     {| this := {| hellesHost := hellesHost (this s);
                   apiKey := apiKey (this s);
                   defaults := defaults (this s);
                   registeredTraces := registeredTraces (this s);
                   timeSync := backed_off (timeSync (this s)) |};
        world := world s |}).
Proof. reflexivity. Qed.

Lemma backoff_next_interval i :
  Math_min (nth i intervals MAX_SYNC_INTERVAL_MS + BACKOFF_STEP_MS)%float
    MAX_SYNC_INTERVAL_MS
  = nth (S i) intervals MAX_SYNC_INTERVAL_MS.
Proof.
  do 11 (destruct i as [| i]; [vm_compute; reflexivity |]).
  destruct i; vm_compute; reflexivity.
Qed.

(** X5: [k] runs of [incrementBackoff] in a row, from the base interval, leave
    [nextIntervalMs] at the [k]-th of 30000, 45000, ..., 180000 and, from the
    tenth run on, at 180000; [offset], [latency] and [lastCheck] are as
    before. *)
Theorem consecutive_backoffs k s :
  nextIntervalMs (timeSync (this s)) = BASE_SYNC_INTERVAL_MS ->
  nextIntervalMs (timeSync (this (backoffs k s)))
  = nth k intervals MAX_SYNC_INTERVAL_MS /\
  (10 <= k ->
   nextIntervalMs (timeSync (this (backoffs k s))) = MAX_SYNC_INTERVAL_MS) /\
  offset (timeSync (this (backoffs k s))) = offset (timeSync (this s)) /\
  latency (timeSync (this (backoffs k s))) = latency (timeSync (this s)) /\
  lastCheck (timeSync (this (backoffs k s))) = lastCheck (timeSync (this s)).
Proof.
  intros Hbase.
  assert (Hrun : nextIntervalMs (timeSync (this (backoffs k s)))
                 = nth k intervals MAX_SYNC_INTERVAL_MS /\
                 offset (timeSync (this (backoffs k s)))
                 = offset (timeSync (this s)) /\
                 latency (timeSync (this (backoffs k s)))
                 = latency (timeSync (this s)) /\
                 lastCheck (timeSync (this (backoffs k s)))
                 = lastCheck (timeSync (this s))).
  { induction k as [| k IH]; [cbn; rewrite Hbase; auto |].
    destruct IH as (Hnext & Hoffset & Hlatency & Hcheck).
    change (backoffs (S k) s) with (snd (incrementBackoff (backoffs k s))).
    rewrite incrementBackoff_run.
    cbn. rewrite Hnext, Hoffset, Hlatency, Hcheck.
    split; [apply backoff_next_interval | auto]. }
  destruct Hrun as (Hnext & Hrest).
  split; [exact Hnext |]. split; [| exact Hrest].
  intros Hk. rewrite Hnext.
  do 10 (destruct k as [| k]; [lia |]).
  destruct k as [| k]; [reflexivity |].
  destruct k; reflexivity.
Qed.

(** ** The order of JavaScript numbers *)

(** The comparisons of binary64 values, through their specification: a
    number equals itself, comparing the other way round gives the opposite
    answer, and NaN is the one value that is not equal to itself. *)
Lemma SFcompare_refl x : x <> S754_nan -> SFcompare x x = Some Eq.
Proof.
  destruct x as [sign | sign | | sign m e]; cbn; intros Hx;
    [reflexivity | destruct sign; reflexivity | contradiction |].
  rewrite Z.compare_refl.
  change (PosDef.Pos.compare_cont Eq m m) with (Pos.compare m m).
  rewrite Pos.compare_refl. destruct sign; reflexivity.
Qed.

Lemma SFcompare_antisym x y :
  SFcompare y x = option_map CompOpp (SFcompare x y).
Proof.
  destruct x as [sx | sx | | sx mx ex], y as [sy | sy | | sy my ey]; cbn;
    try reflexivity;
    try (destruct sx; reflexivity); try (destruct sy; reflexivity);
    try (destruct sx, sy; reflexivity).
  change (PosDef.Pos.compare_cont Eq my mx) with (Pos.compare my mx).
  change (PosDef.Pos.compare_cont Eq mx my) with (Pos.compare mx my).
  rewrite (Z.compare_antisym ex ey), (Pos.compare_antisym mx my).
  destruct sx, sy; try reflexivity;
    destruct (ex ?= ey)%Z; cbn; try reflexivity;
    destruct (mx ?= my)%positive; reflexivity.
Qed.

Lemma is_nan_Prim2SF t : PrimFloat.is_nan t = true <-> Prim2SF t = S754_nan.
Proof.
  unfold PrimFloat.is_nan. rewrite FloatAxioms.eqb_spec. unfold SFeqb. split.
  - intros Hnan. destruct (Prim2SF t) eqn:Ht; try reflexivity;
      rewrite SFcompare_refl in Hnan by discriminate; discriminate.
  - intros ->. reflexivity.
Qed.

(** On numbers, [a < b] being false means [b <= a]. *)
Lemma js_lt_false_leb a b :
  PrimFloat.is_nan a = false -> PrimFloat.is_nan b = false ->
  js_lt a b = false -> PrimFloat.leb b a = true.
Proof.
  intros Ha Hb. unfold js_lt. rewrite FloatAxioms.ltb_spec, FloatAxioms.leb_spec.
  unfold SFltb, SFleb. rewrite (SFcompare_antisym (Prim2SF a) (Prim2SF b)).
  assert (Ha' : Prim2SF a <> S754_nan).
  { intros H. apply is_nan_Prim2SF in H. congruence. }
  assert (Hb' : Prim2SF b <> S754_nan).
  { intros H. apply is_nan_Prim2SF in H. congruence. }
  destruct (SFcompare (Prim2SF a) (Prim2SF b)) as [[]|] eqn:Hc; cbn;
    try reflexivity; try discriminate.
  intros _. destruct (Prim2SF a), (Prim2SF b); cbn in Hc; try discriminate;
    contradiction.
Qed.

(** The check of lines 233-236 on a number: not out of range is within the
    two bounds, both included. *)
Lemma out_of_range_window t :
  out_of_range t = false ->
  PrimFloat.is_nan t = false ->
  PrimFloat.leb 1665000000000 t = true /\ PrimFloat.leb t 2565000000000 = true.
Proof.
  unfold out_of_range, js_gt. intros Hrange Hnumber.
  apply orb_false_elim in Hrange as [Hlow Hhigh].
  split; apply js_lt_false_leb; try assumption; reflexivity.
Qed.

(** The check of lines 233-236 on NaN: both comparisons are false. *)
Lemma out_of_range_nan t : PrimFloat.is_nan t = true -> out_of_range t = false.
Proof.
  intros Hnan. apply is_nan_Prim2SF in Hnan.
  unfold out_of_range, js_lt, js_gt. rewrite !FloatAxioms.ltb_spec, Hnan.
  unfold SFltb. cbn. destruct (Prim2SF 2565000000000); reflexivity.
Qed.

(** ** The two public methods, further *)

Section Protocol.

Context {runtime : Runtime}.

Lemma prefix_append a b : String.prefix a (a +:+ b) = true.
Proof.
  induction a as [| c a IH]; [destruct b; reflexivity |].
  simpl. destruct (ascii_dec c c) as [_ | Hc]; [exact IH | congruence].
Qed.

Lemma stage_outcome_prefix stage reply e :
  stage_outcome stage reply = Throw e -> String.prefix stage (message e) = true.
Proof.
  unfold stage_outcome. intros Houtcome.
  repeat match type of Houtcome with
         | context [match ?x with _ => _ end] => destruct x
         end;
    try discriminate; injection Houtcome as <-; apply prefix_append.
Qed.

(** Lines 288-313, by cases on the reply. *)
Lemma submit_result payload s :
  logTraceEvent_submit payload s
  = (stage_outcome "logTraceEvent err: "
       (next_reply s (submission_request (this s) payload)),
     {| this := this s;
        world := after_call (submission_request (this s) payload)
                   (world s) |}).
Proof.
  unfold logTraceEvent_submit, stage_outcome, next_reply, submission_request,
    after_call, try_catch, bind, request, json_or_empty, json_of, gets,
    set_world, ret, throw.
  cbn.
  destruct (net (world s) _ _) as [e | r]; cbn.
  - destruct (error_field e); reflexivity.
  - destruct (400 <=? statusCode r)%Z; cbn.
    + destruct (body_json r) as [j | e]; cbn;
        [destruct (property j "error") as [[]|] |]; reflexivity.
    + destruct (body_json r) as [j | e]; cbn; [reflexivity |].
      destruct (error_field e); reflexivity.
Qed.

(** Lines 343-388 past the two checks, by cases on the reply. *)
Lemma deleteTrace_try_run p s :
  truthy (apiKey (this s)) = true ->
  DeleteTrace.traceKey p <> EmptyString ->
  let key := fully_qualified (this s) (DeleteTrace.traceKey p) in
  let req := deletion_request (this s) key in
  deleteTrace_try p s
  = (stage_outcome "deleteTrace err: " (next_reply s req),
     {| this := if accepted (next_reply s req)
                then evicting (toUpperCase key) (this s)
                else this s;
        world := after_call req (world s) |}).
Proof.
  intros Hkey Hname. cbv zeta.
  unfold deleteTrace_try. rewrite bind_run. unfold gets at 1.
  rewrite bind_run, Hkey. cbn [negb].
  unfold ret at 1. rewrite bind_run.
  apply String.eqb_neq in Hname. unfold truthy at 1. rewrite Hname.
  cbn [negb]. unfold ret at 1. rewrite bind_run, applyTraceSuffix_run.
  unfold deletion_request.
  generalize (toUpperCase (fully_qualified (this s) (DeleteTrace.traceKey p))).
  intros key.
  unfold stage_outcome, next_reply, accepted, evicting, after_call, try_catch,
    bind, request, json_or_empty, json_of, set_registeredTraces, set_this,
    gets, set_world, ret, throw.
  cbn.
  destruct (net (world s) _ _) as [e | r]; cbn.
  { destruct (error_field e); destruct s as [[] ?]; reflexivity. }
  destruct (400 <=? statusCode r)%Z; cbn.
  { destruct (body_json r) as [j | e]; cbn;
      [destruct (property j "error") as [[]|] |];
      destruct s as [[] ?]; reflexivity. }
  destruct (bool_decide (key ∈ registeredTraces (this s))); cbn;
    (destruct (body_json r) as [j | e]; cbn;
     [| destruct (error_field e)]); destruct s as [[] ?]; reflexivity.
Qed.

(** What the [try] block of a call that passes the checks returns. *)
Lemma logTraceEvent_try_result p s :
  passes_validation p s = true ->
  let key := fully_qualified (this s) (LogTraceEvent.traceKey p) in
  let reg := registration_request (this s) key in
  fst (logTraceEvent_try p s)
  = if bool_decide (key ∈ registeredTraces (this s))
    then stage_outcome "logTraceEvent err: " (submission_reply p s)
    else if accepted (next_reply s reg)
    then stage_outcome "logTraceEvent err: " (submission_reply p s)
    else Throw (registration_error (next_reply s reg)).
Proof.
  intros Hvalid. cbv zeta.
  pose proof (resolved_quiet p s) as (Hthis & Hnet & Hcalls).
  unfold passes_validation in Hvalid.
  apply andb_prop in Hvalid as [Hrange Hsender].
  apply negb_true_iff in Hrange. apply bool_decide_eq_true in Hsender.
  destruct Hsender as [sender Hsender].
  rewrite logTraceEvent_try_run. cbv zeta. rewrite Hrange, Hsender.
  unfold submission_reply.
  destruct (bool_decide _).
  - rewrite submit_result. cbn [fst]. unfold next_reply.
    rewrite Hthis, Hnet, Hcalls. reflexivity.
  - destruct (accepted _); [| reflexivity].
    rewrite submit_result. cbn [fst]. unfold next_reply, after_call. cbn.
    rewrite Hnet, Hcalls, length_app, Nat.add_1_r. reflexivity.
Qed.

Lemma submission_means_valid p s r payload :
  In r (issued s (snd (logTraceEvent p s))) ->
  body r = EventBody payload ->
  passes_validation p s = true.
Proof.
  rewrite issued_logTraceEvent. cbv zeta.
  destruct (passes_validation p s); [reflexivity | intros []].
Qed.

(** X6: every event submission of a call carries the timestamp the caller
    gave; without one, the value of the configured timestamp source; without
    that, the local clock reading plus the offset of the time-sync state.  A
    timestamp submitted has passed the check of lines 233-236: it is a number
    from 1665000000000 to 2565000000000, both included, or it is NaN.  NaN is
    not stopped: a call whose timestamp is NaN, that has a sender, and whose
    key is cached or whose registration is accepted, issues its event
    submission. *)
Theorem submitted_timestamp p s :
  (forall r payload,
     In r (issued s (snd (logTraceEvent p s))) ->
     body r = EventBody payload ->
     let t := EventPayload.eventTimestampUtc payload in
     out_of_range t = false /\
     (PrimFloat.is_nan t = false ->
      PrimFloat.leb 1665000000000 t = true /\
      PrimFloat.leb t 2565000000000 = true) /\
     (forall explicit, LogTraceEvent.eventTimestampUtc p = Some explicit ->
        t = explicit) /\
     (LogTraceEvent.eventTimestampUtc p = None ->
      forall f, Defaults.eventTimestampFunc (defaults (this s)) = Some f ->
        t = f (world (snd (logTraceEvent_attributes p s)))) /\
     (LogTraceEvent.eventTimestampUtc p = None ->
      Defaults.eventTimestampFunc (defaults (this s)) = None ->
      t = (clock (world s) (ticks (world s))
           + offset (timeSync (this s)))%float)) /\
  (let key := fully_qualified (this s) (LogTraceEvent.traceKey p) in
   PrimFloat.is_nan (effective_timestamp p s) = true ->
   bool_decide (is_Some (effective_sender p (this s))) = true ->
   key ∈ registeredTraces (this s) \/
   accepted (next_reply s (registration_request (this s) key)) = true ->
   In (submission_request (this s) (event_payload p s))
     (issued s (snd (logTraceEvent p s))) /\
   PrimFloat.is_nan
     (EventPayload.eventTimestampUtc (event_payload p s)) = true).
Proof.
  split.
  - intros r payload Hin Hbody. cbv zeta.
    pose proof (submission_means_valid p s r payload Hin Hbody) as Hvalid.
    rewrite (submissions_carry_payload p s r payload Hin Hbody).
    cbn [EventPayload.eventTimestampUtc event_payload].
    unfold passes_validation in Hvalid.
    apply andb_prop in Hvalid as [Hrange _]. apply negb_true_iff in Hrange.
    split; [exact Hrange |].
    split; [exact (out_of_range_window _ Hrange) |].
    unfold effective_timestamp.
    split; [intros t -> ; reflexivity |].
    split; [intros -> f -> ; reflexivity | intros -> -> ; reflexivity].
  - cbv zeta. intros Hnan Hsender Hreaches.
    split; [| exact Hnan].
    rewrite issued_logTraceEvent. cbv zeta.
    unfold passes_validation.
    rewrite (out_of_range_nan _ Hnan), Hsender. cbn [negb andb].
    destruct (bool_decide
                (fully_qualified (this s) (LogTraceEvent.traceKey p)
                 ∈ registeredTraces (this s))) eqn:Hcached;
      [left; reflexivity |].
    destruct Hreaches as [Hin | ->]; [| right; left; reflexivity].
    apply bool_decide_eq_false in Hcached. contradiction.
Qed.

(** X7: every event submission of a call is a [POST] to [/events] on the
    server address and carries the trace key with the configured suffix, the
    event type, the event string and the de-duplication token as the caller
    gave them. *)
Theorem submission_carries_call_fields p s r payload :
  In r (issued s (snd (logTraceEvent p s))) ->
  body r = EventBody payload ->
  url r = hellesHost (this s) +:+ "/events" /\
  method r = POST /\
  EventPayload.traceKey payload
  = fully_qualified (this s) (LogTraceEvent.traceKey p) /\
  EventPayload.eventTypeKey payload = LogTraceEvent.eventType p /\
  EventPayload.eventString payload = LogTraceEvent.eventString p /\
  EventPayload.eventUniquer payload = LogTraceEvent.eventUniquer p.
Proof.
  intros Hin Hbody.
  rewrite (submissions_carry_payload p s r payload Hin Hbody).
  revert Hin Hbody. rewrite issued_logTraceEvent. cbv zeta.
  destruct (passes_validation p s); [| intros []].
  destruct (bool_decide _); [| destruct (accepted _)]; cbn [In];
    intros Hin Hbody; intuition subst; try discriminate; reflexivity.
Qed.

(** X8: every registration of a call is a [POST] to [/traces] on the server
    address; it carries the fully-qualified key both as trace key and as trace
    string, and the configured trace type, [TRACE] when none is configured. *)
Theorem registration_carries_key_and_type p s r payload :
  In r (issued s (snd (logTraceEvent p s))) ->
  body r = TraceBody payload ->
  url r = hellesHost (this s) +:+ "/traces" /\
  method r = POST /\
  TracePayload.traceKey payload
  = fully_qualified (this s) (LogTraceEvent.traceKey p) /\
  TracePayload.traceString payload
  = fully_qualified (this s) (LogTraceEvent.traceKey p) /\
  (forall traceType,
     Defaults.traceType (defaults (this s)) = Some traceType ->
     TracePayload.traceType payload = traceType) /\
  (Defaults.traceType (defaults (this s)) = None ->
   TracePayload.traceType payload = "TRACE").
Proof.
  rewrite issued_logTraceEvent. cbv zeta.
  set (key := fully_qualified (this s) (LogTraceEvent.traceKey p)).
  assert (Hreg : r = registration_request (this s) key ->
                 body r = TraceBody payload ->
                 url r = hellesHost (this s) +:+ "/traces" /\
                 method r = POST /\
                 TracePayload.traceKey payload = key /\
                 TracePayload.traceString payload = key /\
                 (forall traceType,
                    Defaults.traceType (defaults (this s)) = Some traceType ->
                    TracePayload.traceType payload = traceType) /\
                 (Defaults.traceType (defaults (this s)) = None ->
                  TracePayload.traceType payload = "TRACE")).
  { intros -> [= <-]. cbn. repeat split.
    - intros traceType ->. reflexivity.
    - intros ->. reflexivity. }
  destruct (passes_validation p s); [| intros []].
  destruct (bool_decide _); [| destruct (accepted _)]; cbn [In];
    intros Hin Hbody.
  - destruct Hin as [<- | []]. discriminate.
  - destruct Hin as [<- | [<- | []]]; [apply Hreg; auto | discriminate].
  - destruct Hin as [<- | []]. apply Hreg; auto.
Qed.

(** X9: a call issues at most one registration and at most one event
    submission and nothing else, the registration first; when the key is in
    the cache it issues no registration, and when it issues a submission the
    key is in the cache afterwards. *)
Theorem one_registration_one_submission_at_most p s :
  let key := fully_qualified (this s) (LogTraceEvent.traceKey p) in
  let sent := issued s (snd (logTraceEvent p s)) in
  count is_registration sent <= 1 /\
  count is_submission sent <= 1 /\
  length sent = count is_registration sent + count is_submission sent /\
  (forall r, head sent = Some r -> is_submission r = true ->
     count is_registration sent = 0) /\
  (key ∈ registeredTraces (this s) -> count is_registration sent = 0) /\
  (count is_submission sent = 1 ->
   key ∈ registeredTraces (this (snd (logTraceEvent p s)))).
Proof.
  cbv zeta. rewrite issued_logTraceEvent. cbv zeta.
  destruct (logTraceEvent_effects p s) as (_ & Heffect).
  destruct (passes_validation p s); cbn;
    [| repeat split; try lia; discriminate].
  destruct (bool_decide _) eqn:Hcached.
  - injection Heffect as -> _. apply bool_decide_eq_true in Hcached.
    cbn. repeat split; auto; lia.
  - apply bool_decide_eq_false in Hcached.
    destruct (accepted _); injection Heffect as -> _; cbn;
      repeat split; try lia;
      try (intros r [= <-] Hsubmission; discriminate Hsubmission);
      try (intros Hin; contradiction).
    intros _. apply elem_of_union_l, elem_of_singleton. reflexivity.
Qed.

(** X10: a call that passes the checks, whose key is cached or whose
    registration is accepted, and whose submission is answered with a status
    below 400 and a JSON body, resolves with that body; the key is in the
    cache afterwards. *)
Theorem logTraceEvent_returns_response_body p s r j :
  passes_validation p s = true ->
  let key := fully_qualified (this s) (LogTraceEvent.traceKey p) in
  key ∈ registeredTraces (this s)
  \/ accepted (next_reply s (registration_request (this s) key)) = true ->
  submission_reply p s = Responds r ->
  (statusCode r < 400)%Z ->
  body_json r = Normal j ->
  fst (logTraceEvent p s) = Normal (Parsed j) /\
  key ∈ registeredTraces (this (snd (logTraceEvent p s))).
Proof.
  intros Hvalid key Hregistered Hreply Hstatus Hbody.
  pose proof (logTraceEvent_try_result p s Hvalid) as Hresult.
  destruct (logTraceEvent_effects p s) as (_ & Heffect).
  cbv zeta in Hresult. fold key in Hresult, Heffect.
  rewrite Hvalid in Heffect.
  assert (Hdone : stage_outcome "logTraceEvent err: " (submission_reply p s)
                  = Normal (Parsed j)).
  { rewrite Hreply. unfold stage_outcome.
    apply Z.leb_gt in Hstatus. rewrite Hstatus, Hbody. reflexivity. }
  rewrite Hdone in Hresult.
  assert (Htry : fst (logTraceEvent_try p s) = Normal (Parsed j)).
  { rewrite Hresult. destruct (bool_decide _) eqn:Hcached; [reflexivity |].
    destruct Hregistered as [Hin | ->]; [| reflexivity].
    apply bool_decide_eq_false in Hcached. contradiction. }
  split.
  - unfold logTraceEvent, try_catch.
    destruct (logTraceEvent_try p s) as [[v | e] s1]; cbn in Htry |- *;
      [exact Htry | discriminate].
  - destruct (bool_decide _) eqn:Hcached.
    + injection Heffect as -> _. apply bool_decide_eq_true in Hcached.
      exact Hcached.
    + destruct Hregistered as [Hin | Haccepted].
      * apply bool_decide_eq_false in Hcached. contradiction.
      * rewrite Haccepted in Heffect. injection Heffect as -> _.
        apply elem_of_union_l, elem_of_singleton. reflexivity.
Qed.

(** X11: when the registration of a call is accepted and its event
    submission fails, the error raised carries the prefix
    [logTraceEvent err: ], the key stays in the cache and the submission is
    not repeated: the call has issued the registration and one submission. *)
Theorem failed_submission_keeps_registration p s e :
  passes_validation p s = true ->
  let key := fully_qualified (this s) (LogTraceEvent.traceKey p) in
  let reg := registration_request (this s) key in
  key ∉ registeredTraces (this s) ->
  accepted (next_reply s reg) = true ->
  fst (logTraceEvent_try p s) = Throw e ->
  String.prefix "logTraceEvent err: " (message e) = true /\
  key ∈ registeredTraces (this (snd (logTraceEvent p s))) /\
  issued s (snd (logTraceEvent p s))
  = [reg; submission_request (this s) (event_payload p s)].
Proof.
  intros Hvalid key reg Hfresh Haccepted Hraised.
  pose proof (logTraceEvent_try_result p s Hvalid) as Hresult.
  pose proof (issued_logTraceEvent p s) as Hissued.
  destruct (logTraceEvent_effects p s) as (_ & Heffect).
  cbv zeta in Hresult, Hissued. fold key in Hresult, Heffect, Hissued.
  fold reg in Hresult, Heffect, Hissued.
  rewrite Hvalid, (bool_decide_false _ Hfresh), Haccepted in *.
  injection Heffect as Hthis _.
  split; [| split; [| exact Hissued]].
  - rewrite Hraised in Hresult. symmetry in Hresult.
    exact (stage_outcome_prefix _ _ _ Hresult).
  - rewrite Hthis. apply elem_of_union_l, elem_of_singleton. reflexivity.
Qed.

(** X12: a status of 400 or more whose body carries a string [error] makes an
    event submission, and likewise a deletion, raise an error whose message is
    the stage prefix twice and then that string: the error thrown in the
    [try] block is wrapped again by the [catch] of the same block.  For
    [logTraceEvent] this is so for every call that gets to its submission:
    one that passes the checks and whose key is cached or whose registration
    is accepted. *)
Theorem structured_error_prefixed_twice :
  (forall p s r j x,
     let key := fully_qualified (this s) (LogTraceEvent.traceKey p) in
     passes_validation p s = true ->
     key ∈ registeredTraces (this s) \/
     accepted (next_reply s (registration_request (this s) key)) = true ->
     submission_reply p s = Responds r ->
     (400 <= statusCode r)%Z ->
     body_json r = Normal j ->
     property j "error" = Some (JStr x) ->
     fst (logTraceEvent_try p s)
     = Throw (new_Error ("logTraceEvent err: logTraceEvent err: " +:+ x))) /\
  (forall p s r j x,
     truthy (apiKey (this s)) = true ->
     DeleteTrace.traceKey p <> EmptyString ->
     next_reply s
       (deletion_request (this s)
          (fully_qualified (this s) (DeleteTrace.traceKey p)))
     = Responds r ->
     (400 <= statusCode r)%Z ->
     body_json r = Normal j ->
     property j "error" = Some (JStr x) ->
     fst (deleteTrace_try p s)
     = Throw (new_Error ("deleteTrace err: deleteTrace err: " +:+ x))).
Proof.
  split.
  - intros p s r j x key Hvalid Hreaches Hreply Hstatus Hbody Herror.
    rewrite (logTraceEvent_try_result p s Hvalid). cbv zeta. fold key.
    assert (Hsubmitted :
              (if bool_decide (key ∈ registeredTraces (this s))
               then stage_outcome "logTraceEvent err: " (submission_reply p s)
               else if accepted (next_reply s
                                   (registration_request (this s) key))
               then stage_outcome "logTraceEvent err: " (submission_reply p s)
               else Throw (registration_error
                             (next_reply s
                                (registration_request (this s) key))))
              = stage_outcome "logTraceEvent err: " (submission_reply p s)).
    { destruct (bool_decide (key ∈ registeredTraces (this s))) eqn:Hcached;
        [reflexivity |].
      destruct Hreaches as [Hin | ->]; [| reflexivity].
      apply bool_decide_eq_false in Hcached. contradiction. }
    rewrite Hsubmitted, Hreply. unfold stage_outcome.
    apply Z.leb_le in Hstatus. rewrite Hstatus, Hbody, Herror. reflexivity.
  - intros p s r j x Hkey Hname Hreply Hstatus Hbody Herror.
    rewrite (deleteTrace_try_run p s Hkey Hname). cbv zeta. cbn [fst].
    rewrite Hreply. unfold stage_outcome.
    apply Z.leb_le in Hstatus. rewrite Hstatus, Hbody, Herror. reflexivity.
Qed.

Lemma deleteTrace_try_keyless p s :
  truthy (apiKey (this s)) = false ->
  deleteTrace_try p s
  = (Throw (new_Error "API key is required for deleteTrace"), s).
Proof.
  intros Hkey. unfold deleteTrace_try. rewrite bind_run. unfold gets at 1.
  rewrite bind_run, Hkey. reflexivity.
Qed.

Lemma deleteTrace_try_nameless p s :
  truthy (apiKey (this s)) = true ->
  DeleteTrace.traceKey p = EmptyString ->
  deleteTrace_try p s = (Throw (new_Error "traceKey is required"), s).
Proof.
  intros Hkey Hname. unfold deleteTrace_try. rewrite bind_run.
  unfold gets at 1. rewrite bind_run, Hkey. cbn [negb].
  unfold ret at 1. rewrite bind_run, Hname. reflexivity.
Qed.

(** X13: [deleteTrace] on a client without an API key, or with an empty one,
    raises [API key is required for deleteTrace]; with an API key and an empty
    trace key it raises [traceKey is required].  In both cases nothing is
    sent and the client object is as it was. *)
Theorem deleteTrace_checks_before_network p s :
  (truthy (apiKey (this s)) = false ->
   deleteTrace_try p s
   = (Throw (new_Error "API key is required for deleteTrace"), s)) /\
  (truthy (apiKey (this s)) = true ->
   DeleteTrace.traceKey p = EmptyString ->
   deleteTrace_try p s = (Throw (new_Error "traceKey is required"), s)) /\
  (truthy (apiKey (this s)) = false \/ DeleteTrace.traceKey p = EmptyString ->
   quiet s (snd (deleteTrace p s))).
Proof.
  split; [apply deleteTrace_try_keyless |].
  split; [apply deleteTrace_try_nameless |].
  intros Hmissing. unfold deleteTrace, try_catch.
  assert (Hraised : exists e, deleteTrace_try p s = (Throw e, s)).
  { destruct (truthy (apiKey (this s))) eqn:Hkey.
    - destruct Hmissing as [? | Hname]; [discriminate |].
      eexists. apply deleteTrace_try_nameless; assumption.
    - eexists. apply deleteTrace_try_keyless. assumption. }
  destruct Hraised as [e ->]. apply routeError_quiet.
Qed.

(** X14: with an API key and a trace key, [deleteTrace] issues exactly one
    call, whether or not the key is in the cache and whatever the reply: a
    [POST] to [/traces/delete] on the server address with the API key and the
    fully-qualified key as the runtime's [toUpperCase] returns it. *)
Theorem deleteTrace_sends_upper_cased_key p s key :
  apiKey (this s) = Some key -> key <> EmptyString ->
  DeleteTrace.traceKey p <> EmptyString ->
  issued s (snd (deleteTrace p s))
  = [ {| url := hellesHost (this s) +:+ "/traces/delete"; method := POST;
         body := DeleteBody
                   {| DeletePayload.apiKey := key;
                      DeletePayload.traceKey :=
                        toUpperCase
                          (fully_qualified (this s)
                             (DeleteTrace.traceKey p)) |} |} ].
Proof.
  intros Hkey Hkey' Hname.
  assert (Htruthy : truthy (apiKey (this s)) = true).
  { rewrite Hkey. cbn. apply String.eqb_neq in Hkey'. rewrite Hkey'.
    reflexivity. }
  pose proof (deleteTrace_try_run p s Htruthy Hname) as Hrun.
  cbv zeta in Hrun. unfold deletion_request in Hrun. rewrite Hkey in Hrun.
  cbn [default] in Hrun.
  unfold issued, deleteTrace, try_catch. rewrite Hrun.
  match goal with
  | |- context [stage_outcome ?stage ?reply] =>
      destruct (stage_outcome stage reply) as [v | e]
  end.
  - cbn. apply drop_app_length.
  - match goal with
    | |- context [routeError ?h e ?st] =>
        destruct (routeError_quiet h e st) as (_ & _ & ->)
    end.
    cbn. apply drop_app_length.
Qed.

Lemma evicting_cache key c :
  registeredTraces (evicting key c) = registeredTraces c ∖ {[ key ]}.
Proof.
  unfold evicting. cbn. destruct (bool_decide _) eqn:Hcached; [reflexivity |].
  apply bool_decide_eq_false in Hcached.
  apply set_eq. intros x. rewrite elem_of_difference, elem_of_singleton.
  split; [intros Hx; split; [exact Hx | congruence] | tauto].
Qed.

(** The state of the client object after [deleteTrace], past its checks. *)
Lemma deleteTrace_this p s :
  truthy (apiKey (this s)) = true ->
  DeleteTrace.traceKey p <> EmptyString ->
  let key := fully_qualified (this s) (DeleteTrace.traceKey p) in
  this (snd (deleteTrace p s))
  = if accepted (next_reply s (deletion_request (this s) key))
    then evicting (toUpperCase key) (this s)
    else this s.
Proof.
  intros Hkey Hname. cbv zeta.
  unfold deleteTrace, try_catch.
  rewrite (deleteTrace_try_run p s Hkey Hname). cbv zeta.
  match goal with
  | |- context [stage_outcome ?stage ?reply] =>
      destruct (stage_outcome stage reply) as [v | e]
  end; [reflexivity |].
  match goal with
  | |- context [routeError ?h e ?st] =>
      destruct (routeError_quiet h e st) as (-> & _)
  end.
  reflexivity.
Qed.

(** X15: past its checks, [deleteTrace] evicts the upper-cased key exactly
    when the transport answers with a status below 400.  A deletion that is
    refused or cannot be sent leaves the cache as it is and raises an error
    with the prefix [deleteTrace err: ]; a deletion answered with a status
    below 400 and a body that is not JSON raises such an error too, and has
    evicted the key all the same. *)
Theorem deleteTrace_evicts_iff_accepted p s :
  truthy (apiKey (this s)) = true ->
  DeleteTrace.traceKey p <> EmptyString ->
  let key := fully_qualified (this s) (DeleteTrace.traceKey p) in
  let reply := next_reply s (deletion_request (this s) key) in
  registeredTraces (this (snd (deleteTrace p s)))
  = (if accepted reply
     then registeredTraces (this s) ∖ {[ toUpperCase key ]}
     else registeredTraces (this s)) /\
  (accepted reply = false ->
   exists e, fst (deleteTrace_try p s) = Throw e /\
             String.prefix "deleteTrace err: " (message e) = true) /\
  (forall r e0,
     reply = Responds r -> (statusCode r < 400)%Z -> body_json r = Throw e0 ->
     accepted reply = true /\
     exists e, fst (deleteTrace_try p s) = Throw e /\
               String.prefix "deleteTrace err: " (message e) = true).
Proof.
  intros Hkey Hname. cbv zeta.
  assert (Htry : fst (deleteTrace_try p s)
                 = stage_outcome "deleteTrace err: "
                     (next_reply s
                        (deletion_request (this s)
                           (fully_qualified (this s)
                              (DeleteTrace.traceKey p)))))
    by (rewrite (deleteTrace_try_run p s Hkey Hname); reflexivity).
  rewrite Htry. clear Htry.
  split; [| split].
  - rewrite (deleteTrace_this p s Hkey Hname). cbv zeta.
    destruct (accepted _); [apply evicting_cache | reflexivity].
  - intros Hrefused.
    destruct (stage_outcome _ _) as [v | e] eqn:Houtcome.
    + revert Houtcome Hrefused. unfold stage_outcome, accepted.
      destruct (next_reply _ _) as [e | r]; [discriminate |].
      destruct (400 <=? statusCode r)%Z; [| discriminate].
      destruct (body_json r) as [j | e];
        [destruct (property j "error") as [[]|] |]; discriminate.
    + exists e. split; [reflexivity |].
      exact (stage_outcome_prefix _ _ _ Houtcome).
  - intros r e0 Hreply Hstatus Hbody. apply Z.leb_gt in Hstatus.
    rewrite Hreply.
    split; [cbn; rewrite Hstatus; reflexivity |].
    destruct (stage_outcome _ _) as [v | e] eqn:Houtcome.
    + unfold stage_outcome in Houtcome.
      rewrite Hstatus, Hbody in Houtcome. discriminate Houtcome.
    + exists e. split; [reflexivity |].
      exact (stage_outcome_prefix _ _ _ Houtcome).
Qed.

(** X17: when the handler that takes an error throws, the method rejects
    with what the handler threw, not with the error it was given. *)
Theorem throwing_handler_rejects_with_its_error :
  (forall p s e s' handler e' h,
     logTraceEvent_try p s = (Throw e, s') ->
     selected_handler (LogTraceEvent.onError p) (this s') = Some handler ->
     handler e (heap (world s')) = (Throw e', h) ->
     logTraceEvent p s = (Throw e', with_heap h s')) /\
  (forall p s e s' handler e' h,
     deleteTrace_try p s = (Throw e, s') ->
     selected_handler (DeleteTrace.onError p) (this s') = Some handler ->
     handler e (heap (world s')) = (Throw e', h) ->
     deleteTrace p s = (Throw e', with_heap h s')).
Proof.
  split; intros p s e s' handler e' h Hraised Hpicked Hthrows;
    unfold logTraceEvent, deleteTrace, try_catch;
    rewrite Hraised, routeError_run, Hpicked; unfold handled_by;
    rewrite Hthrows; reflexivity.
Qed.

(** The client object after [deleteTrace]: as it was, or with the
    upper-cased key evicted. *)
Lemma deleteTrace_this_cases p s :
  this (snd (deleteTrace p s)) = this s \/
  this (snd (deleteTrace p s))
  = evicting (toUpperCase (fully_qualified (this s) (DeleteTrace.traceKey p)))
      (this s).
Proof.
  destruct (truthy (apiKey (this s))) eqn:Hkey.
  - destruct (String.eqb (DeleteTrace.traceKey p) EmptyString) eqn:Hname.
    + apply String.eqb_eq in Hname. left.
      unfold deleteTrace, try_catch.
      rewrite (deleteTrace_try_nameless p s Hkey Hname).
      apply routeError_quiet.
    + apply String.eqb_neq in Hname.
      rewrite (deleteTrace_this p s Hkey Hname). cbv zeta.
      destruct (accepted _); auto.
  - left. unfold deleteTrace, try_catch.
    rewrite (deleteTrace_try_keyless p s Hkey). apply routeError_quiet.
Qed.

Lemma sync_keeps_cache isInitial s :
  registeredTraces (this (snd (sync isInitial s))) = registeredTraces (this s).
Proof.
  unfold sync, try_finally, try_catch, bind, request, json_of, Date_now,
    incrementBackoff, console_warn, setTimeout, set_timeSync, set_this, gets,
    set_world, ret, throw.
  cbn.
  destruct (net (world s) _ _) as [e | r]; cbn.
  - destruct isInitial; reflexivity.
  - destruct (body_json r) as [j | e]; cbn.
    + destruct (property j "serverUtcMilliseconds") as [[]|]; reflexivity.
    + destruct isInitial; reflexivity.
Qed.

(** X16: take a [deleteTrace] that resolves with the response body and a
    following [logTraceEvent] for the same key that passes the checks.  If the
    fully-qualified key is its own upper case, the deletion leaves it out of
    the cache and the [logTraceEvent] registers the trace again before
    anything else.  If it is not and was cached, it is still cached and the
    [logTraceEvent] issues its event submission without any registration. *)
Theorem delete_then_log_registers_again pd pl s j s' :
  let key := fully_qualified (this s) (DeleteTrace.traceKey pd) in
  deleteTrace pd s = (Normal (Parsed j), s') ->
  fully_qualified (this s) (LogTraceEvent.traceKey pl) = key ->
  passes_validation pl s' = true ->
  (toUpperCase key = key ->
   (key ∉ registeredTraces (this s')) /\
   exists rest,
     issued s' (snd (logTraceEvent pl s'))
     = registration_request (this s') key :: rest) /\
  (toUpperCase key <> key ->
   key ∈ registeredTraces (this s) ->
   key ∈ registeredTraces (this s') /\
   issued s' (snd (logTraceEvent pl s'))
   = [submission_request (this s') (event_payload pl s')]).
Proof.
  intros key Hresolved Hsame Hvalid.
  assert (Hs' : s' = snd (deleteTrace pd s)) by (rewrite Hresolved; reflexivity).
  assert (Hcache : registeredTraces (this s')
                   = registeredTraces (this s) ∖ {[ toUpperCase key ]}).
  { unfold deleteTrace, try_catch in Hresolved.
    destruct (deleteTrace_try pd s) as [[v | e] s1] eqn:Htry.
    - injection Hresolved as _ <-. exact (deleteTrace_try_success _ _ _ _ Htry).
    - rewrite routeError_run in Hresolved. unfold handled_by in Hresolved.
      destruct (selected_handler _ _) as [handler |]; [| discriminate].
      destruct (handler _ _) as [[[] | e'] h]; discriminate. }
  assert (Hdefaults : defaults (this s') = defaults (this s)).
  { rewrite Hs'. destruct (deleteTrace_this_cases pd s) as [-> | ->];
      reflexivity. }
  assert (Hkey' : fully_qualified (this s') (LogTraceEvent.traceKey pl) = key).
  { unfold fully_qualified in *. rewrite Hdefaults. exact Hsame. }
  split.
  - intros Hupper. rewrite Hupper in Hcache.
    assert (Hevicted : key ∉ registeredTraces (this s')).
    { rewrite Hcache. rewrite elem_of_difference, elem_of_singleton. tauto. }
    split; [exact Hevicted |].
    rewrite issued_logTraceEvent. cbv zeta.
    rewrite Hvalid, Hkey', (bool_decide_false _ Hevicted).
    destruct (accepted _); eauto.
  - intros Hother Hcached.
    assert (Hkept : key ∈ registeredTraces (this s')).
    { rewrite Hcache. apply elem_of_difference. split; [exact Hcached |].
      rewrite elem_of_singleton. congruence. }
    split; [exact Hkept |].
    rewrite issued_logTraceEvent. cbv zeta.
    rewrite Hvalid, Hkey', (bool_decide_true _ Hkept). reflexivity.
Qed.

(** X18: the registration cache only grows under [logTraceEvent], only
    shrinks under [deleteTrace] and is not touched by the synchronization
    loop. *)
Theorem cache_grows_by_logging_shrinks_by_deleting :
  (forall p s,
     registeredTraces (this s)
     ⊆ registeredTraces (this (snd (logTraceEvent p s)))) /\
  (forall p s,
     registeredTraces (this (snd (deleteTrace p s)))
     ⊆ registeredTraces (this s)) /\
  (forall isInitial s,
     registeredTraces (this (snd (sync isInitial s)))
     = registeredTraces (this s)).
Proof.
  split; [| split].
  - intros p s. destruct (logTraceEvent_effects p s) as (_ & Heffect).
    repeat match type of Heffect with
           | context [if ?b then _ else _] => destruct b
           end;
      injection Heffect as -> _; try reflexivity.
    apply union_subseteq_r.
  - intros p s. destruct (deleteTrace_this_cases p s) as [-> | ->];
      [reflexivity |].
    rewrite evicting_cache. apply subseteq_difference_l. reflexivity.
  - apply sync_keeps_cache.
Qed.

(** X19: neither [logTraceEvent] nor [deleteTrace] changes the server
    address, the API key, the defaults or the time-sync state of the client,
    whatever their outcome. *)
Theorem public_methods_keep_configuration :
  (forall p s,
     let c := this (snd (logTraceEvent p s)) in
     hellesHost c = hellesHost (this s) /\ apiKey c = apiKey (this s) /\
     defaults c = defaults (this s) /\ timeSync c = timeSync (this s)) /\
  (forall p s,
     let c := this (snd (deleteTrace p s)) in
     hellesHost c = hellesHost (this s) /\ apiKey c = apiKey (this s) /\
     defaults c = defaults (this s) /\ timeSync c = timeSync (this s)).
Proof.
  split; intros p s; cbv zeta.
  - destruct (logTraceEvent_effects p s) as (_ & Heffect).
    repeat match type of Heffect with
           | context [if ?b then _ else _] => destruct b
           end;
      injection Heffect as -> _; repeat split.
  - destruct (deleteTrace_this_cases p s) as [-> | ->]; repeat split.
Qed.

Lemma object_at_insert (h : Heap) o (object : gmap string json) :
  object_at (<[o := object]> h) o = object.
Proof. unfold object_at. rewrite lookup_insert_eq. reflexivity. Qed.

(** What lines 206 and 226-227 do to the caller's objects. *)
Lemma attributes_heap p s :
  let o := attributes_of p s in
  let h := heap (world s) in
  let h' := heap (world (snd (logTraceEvent_attributes p s))) in
  (forall o', o' <> o -> h' !! o' = h !! o') /\
  object_at h' o = with_overrides p (object_at h o) /\
  (LogTraceEvent.eventAttributes p = None -> h !! o = None).
Proof.
  cbv zeta.
  assert (Hfresh : heap (world s) !! fresh (dom (heap (world s))) = None)
    by apply not_elem_of_dom_1, is_fresh.
  assert (Hempty : object_at (heap (world s)) (fresh (dom (heap (world s))))
                   = ∅)
    by (unfold object_at, ref; rewrite Hfresh; reflexivity).
  unfold logTraceEvent_attributes, attributes_of, with_overrides, new_object,
    set_property, set_heap, bind, gets, ret, set_world.
  unfold ref in *.
  destruct (LogTraceEvent.eventAttributes p) as [o |];
    destruct (truthy (LogTraceEvent.eventTypeLabel p));
    destruct (truthy (LogTraceEvent.eventTypeIcon p));
    cbn [fst snd heap world];
    rewrite ?object_at_insert, ?Hempty;
    (split; [intros o' Ho'; rewrite ?lookup_insert_ne by congruence;
             reflexivity |]);
    (split; [reflexivity | congruence || auto]).
Qed.

(** X20: a call of [logTraceEvent] touches no object of the caller but the
    attribute object it was given; without one it works on a new object.  The
    attribute object ends up as it was plus the label and the icon that are
    given and not empty, and that is what every event submission of the call
    carries. *)
Theorem only_the_attribute_object_is_written p s :
  let o := attributes_of p s in
  let before := object_at (heap (world s)) o in
  (forall o', o' <> o ->
     heap (world (snd (logTraceEvent_try p s))) !! o' = heap (world s) !! o') /\
  object_at (heap (world (snd (logTraceEvent_try p s)))) o
  = with_overrides p before /\
  (LogTraceEvent.eventAttributes p = None ->
   heap (world s) !! o = None /\ before = ∅) /\
  (forall r payload,
     In r (issued s (snd (logTraceEvent p s))) ->
     body r = EventBody payload ->
     EventPayload.eventAttributes payload = with_overrides p before).
Proof.
  cbv zeta.
  destruct (attributes_heap p s) as (Hothers & Hobject & Hnew).
  destruct (logTraceEvent_try_effects p s) as (_ & Hheap & _).
  rewrite Hheap, resolved_heap.
  split; [exact Hothers |]. split; [exact Hobject |].
  split.
  - intros Hnone. split; [exact (Hnew Hnone) |].
    unfold object_at. rewrite (Hnew Hnone). reflexivity.
  - intros r payload Hin Hbody.
    rewrite (submissions_carry_payload p s r payload Hin Hbody).
    cbn [EventPayload.eventAttributes event_payload].
    rewrite resolved_heap. exact Hobject.
Qed.

End Protocol.

(** ** The theorems at work on concrete clients *)

#[local] Existing Instance Examples.runtime.

Lemma cached (key : string) (traces : gset string) :
  bool_decide (key ∈ traces) = true -> key ∈ traces.
Proof. apply bool_decide_eq_true. Qed.

Lemma not_cached (key : string) (traces : gset string) :
  bool_decide (key ∈ traces) = false -> key ∉ traces.
Proof. apply bool_decide_eq_false. Qed.

(** The example of the specification: sent at 1,700,000,000,000, received 50
    ms later, the server reporting 1,700,000,000,100: the offset is 75. *)
Lemma sync_success_stores_offset_example :
  attempt (Examples.started Examples.up) = Synced 1700000000100 /\
  latency (timeSync (this (snd (sync true (Examples.started Examples.up)))))
    = Some 25%float /\
  offset (timeSync (this (snd (sync true (Examples.started Examples.up)))))
    = 75%float.
Proof.
  assert (Hsynced : attempt (Examples.started Examples.up)
                    = Synced 1700000000100) by (vm_compute; reflexivity).
  split; [exact Hsynced |].
  destruct (sync_success_stores_offset true _ _ Hsynced)
    as (_ & Hlatency & Hoffset & _).
  rewrite Hlatency, Hoffset. split; vm_compute; reflexivity.
Defined.

(** With the server down, the first attempt leaves the interval at 30000 and
    the second one takes it to 45000. *)
Lemma nextIntervalMs_invariant_example :
  reachable false
    (timeSync (this (snd (sync true (Examples.started Examples.down))))) /\
  backoff_step 30000
    (nextIntervalMs
       (timeSync (this (snd (sync false
          (snd (sync true (Examples.started Examples.down)))))))).
Proof.
  assert (Hreach : reachable false
            (timeSync (this (snd (sync true (Examples.started Examples.down)))))).
  { apply (reach_attempt true (Examples.started Examples.down)).
    apply (reach_constructed Examples.config). }
  split; [exact Hreach |].
  destruct (nextIntervalMs_invariant false _ Hreach) as (_ & _ & Hstep).
  exact Hstep.
Defined.

(** The first attempt and five more against a server that is down arm the
    timer with 30000, 45000, 60000, 75000, 90000 and 105000. *)
Lemma backoff_sequence_example :
  let fail := fun s => snd (sync false s) in
  timers (world (fail (fail (fail (fail (fail
     (snd (sync true (Examples.started Examples.down)))))))))
  = [30000; 45000; 60000; 75000; 90000; 105000]%float.
Proof. vm_compute. reflexivity. Qed.

(** A success followed by an outage: the offset of 75 stays. *)
Lemma failed_sync_keeps_last_good_offset_example :
  offset (timeSync (this (snd (sync false
     (Examples.outage (snd (sync true (Examples.started Examples.up))))))))
  = 75%float.
Proof.
  assert (Hsynced : attempt (Examples.started Examples.up)
                    = Synced 1700000000100) by (vm_compute; reflexivity).
  assert (Hrun : failures_since
            (snd (sync true (Examples.started Examples.up)))
            (snd (sync false
               (Examples.outage (snd (sync true (Examples.started Examples.up))))))).
  { apply (failures_more _ (snd (sync true (Examples.started Examples.up)))).
    - apply failures_none.
    - reflexivity.
    - intros n. vm_compute. discriminate. }
  destruct (failed_sync_keeps_last_good_offset true _ _ _ Hsynced Hrun)
    as (Hoffset & _).
  rewrite Hoffset. vm_compute. reflexivity.
Defined.

(** Two notes on the same trace: one registration, two submissions.  With a
    service that refuses the first call, the registration is tried again. *)
Lemma registration_once_per_key_example :
  (count is_registration
     (issued (Examples.started Examples.up)
        (snd (logTraceEvent (Examples.deposit 1700000000050)
           (snd (logTraceEvent (Examples.deposit 1700000000000)
              (Examples.started Examples.up)))))) = 1 /\
   count is_submission
     (issued (Examples.started Examples.up)
        (snd (logTraceEvent (Examples.deposit 1700000000050)
           (snd (logTraceEvent (Examples.deposit 1700000000000)
              (Examples.started Examples.up)))))) = 2) /\
  exists rest,
    issued (snd (logTraceEvent (Examples.deposit 1700000000000)
                   (Examples.started Examples.flaky)))
      (snd (logTraceEvent (Examples.deposit 1700000000050)
         (snd (logTraceEvent (Examples.deposit 1700000000000)
            (Examples.started Examples.flaky)))))
    = registration_request (this (Examples.started Examples.flaky))
        "deposit_1_dev" :: rest.
Proof.
  split.
  - destruct (registration_once_per_key
                (Examples.deposit 1700000000000)
                (Examples.deposit 1700000000050)
                (Examples.started Examples.up) eq_refl) as (Honce & _).
    destruct Honce as (_ & Honce).
    + vm_compute. reflexivity.
    + apply not_cached. vm_compute. reflexivity.
    + vm_compute. reflexivity.
    + apply Honce. vm_compute. reflexivity.
  - destruct (registration_once_per_key
                (Examples.deposit 1700000000000)
                (Examples.deposit 1700000000050)
                (Examples.started Examples.flaky) eq_refl) as (_ & Hretry).
    destruct Hretry as (_ & _ & _ & Hnext).
    + vm_compute. reflexivity.
    + apply not_cached. vm_compute. reflexivity.
    + vm_compute. reflexivity.
    + apply Hnext. vm_compute. reflexivity.
Defined.

(** C3 as stated fails: the first call passes the checks and its
    registration is accepted, the second one carries the timestamp
    1,000,000,000,000 and is turned down before the network, so that one event
    submission is issued, not two. *)
Lemma invalid_second_call_submits_nothing :
  ~ (forall (runtime : Runtime) p1 p2 s0,
       let key := fully_qualified (this s0) (LogTraceEvent.traceKey p1) in
       let reg := registration_request (this s0) key in
       let s1 := snd (logTraceEvent p1 s0) in
       let s2 := snd (logTraceEvent p2 s1) in
       fully_qualified (this s0) (LogTraceEvent.traceKey p2) = key ->
       passes_validation p1 s0 = true ->
       key ∉ registeredTraces (this s0) ->
       accepted (next_reply s0 reg) = true ->
       count is_registration (issued s0 s2) = 1 /\
       count is_submission (issued s0 s2) = 2).
Proof.
  intros Hclaim.
  destruct (Hclaim Examples.runtime
              (Examples.deposit 1700000000000)
              (Examples.deposit 1000000000000)
              (Examples.started Examples.up)) as (_ & Htwo).
  - reflexivity.
  - vm_compute. reflexivity.
  - apply not_cached. vm_compute. reflexivity.
  - vm_compute. reflexivity.
  - vm_compute in Htwo. discriminate.
Qed.

(** A timestamp of 1,000,000,000,000 is turned down with nothing sent; the
    lower bound 1,665,000,000,000 itself goes through to the network. *)
Lemma timestamp_window_example :
  fst (logTraceEvent_try (Examples.deposit 1000000000000)
         (Examples.started Examples.up))
  = Throw (out_of_range_error "1000000000000") /\
  calls (world (snd (logTraceEvent (Examples.deposit 1000000000000)
                       (Examples.started Examples.up)))) = [] /\
  issued (Examples.started Examples.up)
    (snd (logTraceEvent (Examples.deposit 1665000000000)
            (Examples.started Examples.up))) <> [].
Proof.
  destruct (timestamp_window_checked_before_network
              (Examples.deposit 1000000000000) (Examples.started Examples.up))
    as (Hout & _).
  destruct (timestamp_window_checked_before_network
              (Examples.deposit 1665000000000) (Examples.started Examples.up))
    as (_ & Hin & _).
  destruct Hout as (Hthrow & _ & Hcalls); [vm_compute; reflexivity |].
  split; [exact Hthrow |]. split; [exact Hcalls |].
  apply Hin; [vm_compute; reflexivity |].
  exists "svc". vm_compute. reflexivity.
Defined.

(** With both handlers in place, the per-call handler takes the error and the
    client-wide handler does not run. *)
Lemma error_routing_precedence_example :
  let s := Examples.started_with Examples.defaults_handled Examples.up in
  let s' := snd (logTraceEvent (Examples.deposit_handled 1000000000000) s) in
  object_at (heap (world s')) 2%positive !! "perCall"
  = Some (JStr (message (out_of_range_error "1000000000000"))) /\
  object_at (heap (world s')) 2%positive !! "clientWide" = None /\
  object_at (heap (world (snd (deleteTrace Examples.erase_handled s))))
    2%positive !! "perCall"
  = Some (JStr "traceKey is required").
Proof.
  cbv zeta.
  destruct error_routing_precedence as (Hlog & Hdelete).
  assert (Hraised :
    logTraceEvent_try (Examples.deposit_handled 1000000000000)
      (Examples.started_with Examples.defaults_handled Examples.up)
    = (Throw (out_of_range_error "1000000000000"),
       resolved (Examples.deposit_handled 1000000000000)
         (Examples.started_with Examples.defaults_handled Examples.up))).
  { rewrite logTraceEvent_try_run. cbv zeta.
    replace (out_of_range _) with true by (vm_compute; reflexivity).
    replace (Number_toString _) with "1000000000000"
      by (vm_compute; reflexivity).
    reflexivity. }
  assert (Hraised' :
    deleteTrace_try Examples.erase_handled
      (Examples.started_with Examples.defaults_handled Examples.up)
    = (Throw (new_Error "traceKey is required"),
       Examples.started_with Examples.defaults_handled Examples.up))
    by reflexivity.
  apply Hlog in Hraised. apply Hdelete in Hraised'.
  unfold routed in Hraised, Hraised'. cbn [LogTraceEvent.onError
    DeleteTrace.onError Examples.deposit_handled Examples.erase_handled]
    in Hraised, Hraised'.
  rewrite Hraised, Hraised'. repeat split; vm_compute; reflexivity.
Defined.

(** The absorbed error leaves the method resolving with [undefined]. *)
Lemma absorbed_error_resolves_undefined_example :
  fst (logTraceEvent (Examples.deposit_handled 1000000000000)
         (Examples.started Examples.up)) = Normal Undefined /\
  fst (deleteTrace Examples.erase_handled (Examples.started Examples.up))
  = Normal Undefined.
Proof.
  destruct absorbed_error_resolves_undefined as (Hlog & Hdelete).
  split.
  - destruct (Hlog (Examples.deposit_handled 1000000000000)
                (Examples.started Examples.up)
                (out_of_range_error "1000000000000")
                (resolved (Examples.deposit_handled 1000000000000)
                   (Examples.started Examples.up))
                (Examples.note "perCall")
                (snd (Examples.note "perCall"
                        (out_of_range_error "1000000000000")
                        (heap (world (resolved
                           (Examples.deposit_handled 1000000000000)
                           (Examples.started Examples.up)))))))
      as (Hresolved & _);
      [vm_compute; reflexivity | reflexivity | reflexivity |].
    rewrite Hresolved. reflexivity.
  - destruct (Hdelete Examples.erase_handled
                (Examples.started Examples.up)
                (new_Error "traceKey is required")
                (Examples.started Examples.up)
                (Examples.note "perCall")
                (snd (Examples.note "perCall"
                        (new_Error "traceKey is required")
                        (heap (world (Examples.started Examples.up))))))
      as (Hresolved & _);
      [vm_compute; reflexivity | reflexivity | reflexivity |].
    rewrite Hresolved. reflexivity.
Defined.


(** The label and the icon of a note end up in the caller's own object and in
    the submitted attributes. *)
Lemma label_and_icon_written_in_place_example :
  let s := Examples.started Examples.up in
  let s' := snd (logTraceEvent_try (Examples.deposit 1700000000000) s) in
  object_at (heap (world s)) 1%positive = {[ "amount" := JNum 1000 ]} /\
  object_at (heap (world s')) 1%positive
  = <["eventTypeIcon" := JStr "*"]>
      (<["eventTypeLabel" := JStr "Alert"]> {[ "amount" := JNum 1000 ]}) /\
  EventPayload.eventAttributes
    (event_payload (Examples.deposit 1700000000000) s) !! "eventTypeLabel"
  = Some (JStr "Alert").
Proof.
  cbv zeta.
  destruct (label_and_icon_written_in_place
              (Examples.deposit 1700000000000) (Examples.started Examples.up)
              1%positive "Alert" "*")
    as (Hobject & Hsubmitted & Hsent);
    [reflexivity | reflexivity | discriminate | reflexivity | discriminate |].
  split; [reflexivity |]. split; [exact Hobject |].
  assert (Hin : In (submission_request (this (Examples.started Examples.up))
                      (event_payload (Examples.deposit 1700000000000)
                         (Examples.started Examples.up)))
                   (issued (Examples.started Examples.up)
                      (snd (logTraceEvent (Examples.deposit 1700000000000)
                              (Examples.started Examples.up)))))
    by (apply (Hsent (JObj ∅)); vm_compute; reflexivity).
  destruct (Hsubmitted _ _ Hin eq_refl) as (_ & Hlabel & _).
  exact Hlabel.
Defined.

(** C7 as stated fails: the object the caller passed is changed by the call. *)
Lemma attributes_object_is_mutated :
  ~ (forall (runtime : Runtime) p s o label icon,
       LogTraceEvent.eventAttributes p = Some o ->
       LogTraceEvent.eventTypeLabel p = Some label ->
       LogTraceEvent.eventTypeIcon p = Some icon ->
       object_at (heap (world (snd (logTraceEvent p s)))) o
       = object_at (heap (world s)) o).
Proof.
  intros Hclaim.
  pose proof (Hclaim Examples.runtime (Examples.deposit 1700000000000)
                (Examples.started Examples.up) 1%positive "Alert" "*"
                eq_refl eq_refl eq_refl) as Hsame.
  apply (f_equal (fun attributes => attributes !! "eventTypeLabel")) in Hsame.
  vm_compute in Hsame. discriminate.
Qed.

(** An explicit sender is used; without one the default is. *)
Lemma sender_resolution_example :
  effective_sender (Examples.deposit_from "ops" 1700000000000)
    (this (Examples.started Examples.up)) = Some "ops" /\
  EventPayload.eventSender
    (event_payload (Examples.deposit 1700000000000)
       (Examples.started Examples.up)) = "svc" /\
  fst (logTraceEvent_try (Examples.deposit 1700000000000)
         (Examples.started_with Examples.defaults_anonymous Examples.up))
  = Throw (new_Error "eventSender is required") /\
  calls (world (snd (logTraceEvent (Examples.deposit 1700000000000)
          (Examples.started_with Examples.defaults_anonymous Examples.up))))
  = [].
Proof.
  destruct (sender_resolution (Examples.deposit_from "ops" 1700000000000)
              (Examples.started Examples.up)) as (Hexplicit & _).
  destruct (sender_resolution (Examples.deposit 1700000000000)
              (Examples.started Examples.up)) as (_ & _ & Hcarried & _).
  destruct (sender_resolution (Examples.deposit 1700000000000)
              (Examples.started_with Examples.defaults_anonymous Examples.up))
    as (_ & _ & _ & Habsent).
  split; [apply Hexplicit; [reflexivity | discriminate] |].
  split.
  { apply (Hcarried "svc"
             (submission_request (this (Examples.started Examples.up))
                (event_payload (Examples.deposit 1700000000000)
                   (Examples.started Examples.up))));
      [reflexivity | vm_compute; auto | reflexivity]. }
  destruct Habsent as ((e & Hthrow & Hmessage) & _ & Hcalls); [reflexivity |].
  split; [| exact Hcalls].
  rewrite Hthrow, Hmessage; [reflexivity | vm_compute; reflexivity].
Defined.

(** C8 as stated fails: an explicit sender that is the empty string is
    provided and yet not used; the event goes out under the default sender. *)
Lemma empty_sender_gives_way_to_default :
  ~ (forall (runtime : Runtime) p s x r payload,
       LogTraceEvent.eventSender p = Some x ->
       In r (issued s (snd (logTraceEvent p s))) ->
       body r = EventBody payload ->
       EventPayload.eventSender payload = x).
Proof.
  intros Hclaim.
  set (p := Examples.deposit_from EmptyString 1700000000000).
  set (s := Examples.started Examples.up).
  pose proof (Hclaim Examples.runtime p s EmptyString
                (submission_request (this s) (event_payload p s))
                (event_payload p s) eq_refl) as Hsender.
  assert (Hsvc : EventPayload.eventSender (event_payload p s) = "svc")
    by reflexivity.
  rewrite Hsvc in Hsender.
  discriminate Hsender; [| reflexivity].
  rewrite issued_logTraceEvent. vm_compute. auto.
Qed.

(** ** The further theorems at work *)

Lemma constructor_normalizes_host_example :
  hellesHost (constructor Examples.config) = "https://helles.example".
Proof.
  destruct (constructor_normalizes_host Examples.config) as (Hstrip & _).
  apply Hstrip. reflexivity.
Defined.

(** The first attempt throws when the server is down, and backs off without
    throwing when the time comes as a string. *)
Lemma sync_throws_only_on_initial_exception_example :
  fst (sync true (Examples.started Examples.down))
  = Throw (new_Error "Helles startup connection health check failed") /\
  fst (sync true (Examples.started Examples.mistyped)) = Normal tt /\
  nextIntervalMs
    (timeSync (this (snd (sync true (Examples.started Examples.mistyped)))))
  = 45000%float /\
  fst (sync true (Examples.started Examples.up)) = Normal tt.
Proof.
  destruct (sync_throws_only_on_initial_exception
              (Examples.started Examples.down)) as (_ & _ & Hdown & _).
  destruct (sync_throws_only_on_initial_exception
              (Examples.started Examples.mistyped))
    as (_ & _ & _ & Hmistyped & _).
  destruct (sync_throws_only_on_initial_exception
              (Examples.started Examples.up)) as (_ & _ & _ & _ & Hup).
  destruct (Hdown {| name := "Error"; message := "connect ECONNREFUSED";
                     error_field := None |}) as (Hthrows & _);
    [vm_compute; reflexivity |].
  destruct (Hmistyped
              (JObj {[ "serverUtcMilliseconds" := JStr "1700000000100" ]}))
    as (Hreturns & Hbacked & _); [vm_compute; reflexivity |].
  destruct (Hup 1700000000100%float) as (Hsynced & _);
    [vm_compute; reflexivity |].
  split; [exact Hthrows |]. split; [exact Hreturns |].
  split; [rewrite Hbacked; vm_compute; reflexivity | exact Hsynced].
Defined.

(** Three failures in a row give 75000, twelve give the cap. *)
Lemma consecutive_backoffs_example :
  nextIntervalMs (timeSync (this (backoffs 3 (Examples.started Examples.up))))
  = 75000%float /\
  nextIntervalMs (timeSync (this (backoffs 12 (Examples.started Examples.up))))
  = 180000%float.
Proof.
  destruct (consecutive_backoffs 3 (Examples.started Examples.up) eq_refl)
    as (Hthird & _).
  destruct (consecutive_backoffs 12 (Examples.started Examples.up) eq_refl)
    as (_ & Hcap & _).
  split; [exact Hthird | apply Hcap; lia].
Defined.

Lemma bare_note_submitted :
  In (Examples.submission (Examples.bare "deposit_1")
        (Examples.started Examples.up))
     (issued (Examples.started Examples.up)
        (snd (logTraceEvent (Examples.bare "deposit_1")
                (Examples.started Examples.up)))).
Proof. rewrite issued_logTraceEvent. vm_compute. auto. Qed.

Lemma bare_note_registered :
  In (registration_request (this (Examples.started Examples.up))
        "deposit_1_dev")
     (issued (Examples.started Examples.up)
        (snd (logTraceEvent (Examples.bare "deposit_1")
                (Examples.started Examples.up)))).
Proof. rewrite issued_logTraceEvent. vm_compute. auto. Qed.

(** A note without a timestamp goes out with the local clock reading. *)
Lemma submitted_timestamp_example :
  EventPayload.eventTimestampUtc
    (event_payload (Examples.bare "deposit_1") (Examples.started Examples.up))
  = 1700000000000%float /\
  In (Examples.submission (Examples.deposit PrimFloat.nan)
        (Examples.started Examples.up))
    (issued (Examples.started Examples.up)
       (snd (logTraceEvent (Examples.deposit PrimFloat.nan)
               (Examples.started Examples.up)))).
Proof.
  split.
  - destruct (submitted_timestamp (Examples.bare "deposit_1")
                (Examples.started Examples.up)) as (Hsubmitted & _).
    destruct (Hsubmitted _ _ bare_note_submitted eq_refl)
      as (_ & _ & _ & _ & Hclock).
    rewrite Hclock by reflexivity. vm_compute. reflexivity.
  - destruct (submitted_timestamp (Examples.deposit PrimFloat.nan)
                (Examples.started Examples.up)) as (_ & Hnan).
    destruct Hnan as (Hin & _).
    + reflexivity.
    + vm_compute. reflexivity.
    + right. vm_compute. reflexivity.
    + exact Hin.
Defined.

Lemma submission_carries_call_fields_example :
  EventPayload.traceKey
    (event_payload (Examples.bare "deposit_1") (Examples.started Examples.up))
  = "deposit_1_dev" /\
  EventPayload.eventUniquer
    (event_payload (Examples.bare "deposit_1") (Examples.started Examples.up))
  = Some "once".
Proof.
  destruct (submission_carries_call_fields (Examples.bare "deposit_1")
              (Examples.started Examples.up) _ _ bare_note_submitted eq_refl)
    as (_ & _ & Hkey & _ & _ & Huniquer).
  rewrite Hkey, Huniquer. split; reflexivity.
Defined.

Lemma registration_carries_key_and_type_example :
  body (registration_request (this (Examples.started Examples.up))
          "deposit_1_dev")
  = TraceBody {| TracePayload.traceKey := "deposit_1_dev";
                 TracePayload.traceType := "TRACE";
                 TracePayload.traceString := "deposit_1_dev" |} /\
  url (registration_request (this (Examples.started Examples.up))
         "deposit_1_dev") = "https://helles.example/traces".
Proof.
  split; [reflexivity |].
  destruct (registration_carries_key_and_type (Examples.bare "deposit_1")
              (Examples.started Examples.up) _ _ bare_note_registered eq_refl)
    as (Hurl & _).
  rewrite Hurl. reflexivity.
Defined.

(** A second note on a trace that is cached issues no registration. *)
Lemma one_registration_one_submission_at_most_example :
  count is_registration
    (issued (Examples.logged Examples.up)
       (snd (logTraceEvent (Examples.bare "deposit_1")
               (Examples.logged Examples.up)))) = 0.
Proof.
  destruct (one_registration_one_submission_at_most
              (Examples.bare "deposit_1") (Examples.logged Examples.up))
    as (_ & _ & _ & _ & Hcached & _).
  apply Hcached. apply cached. vm_compute. reflexivity.
Defined.

Lemma logTraceEvent_returns_response_body_example :
  fst (logTraceEvent (Examples.bare "deposit_1")
         (Examples.started Examples.up))
  = Normal (Parsed (JObj ∅)).
Proof.
  destruct (logTraceEvent_returns_response_body
              (Examples.bare "deposit_1") (Examples.started Examples.up)
              {| statusCode := 200; body_json := Normal (JObj ∅) |} (JObj ∅))
    as (Hbody & _).
  - vm_compute. reflexivity.
  - right. vm_compute. reflexivity.
  - vm_compute. reflexivity.
  - reflexivity.
  - reflexivity.
  - exact Hbody.
Defined.

(** The service registers the trace and turns the event down: the trace
    stays registered and the error names the stage. *)
Lemma failed_submission_keeps_registration_example :
  "deposit_1_dev"
  ∈ registeredTraces
      (this (snd (logTraceEvent (Examples.bare "deposit_1")
                    (Examples.started Examples.refusing_events)))) /\
  length (issued (Examples.started Examples.refusing_events)
            (snd (logTraceEvent (Examples.bare "deposit_1")
                    (Examples.started Examples.refusing_events)))) = 2.
Proof.
  destruct (failed_submission_keeps_registration
              (Examples.bare "deposit_1")
              (Examples.started Examples.refusing_events)
              (new_Error "logTraceEvent err: logTraceEvent err: bad event"))
    as (_ & Hcached & Hissued).
  - vm_compute. reflexivity.
  - apply not_cached. vm_compute. reflexivity.
  - vm_compute. reflexivity.
  - vm_compute. reflexivity.
  - split; [exact Hcached | rewrite Hissued; reflexivity].
Defined.

Lemma structured_error_prefixed_twice_example :
  fst (logTraceEvent_try (Examples.bare "deposit_1")
         (Examples.logged Examples.refusing_events))
  = Throw (new_Error "logTraceEvent err: logTraceEvent err: bad event") /\
  fst (logTraceEvent_try (Examples.bare "deposit_1")
         (Examples.started Examples.refusing_events))
  = Throw (new_Error "logTraceEvent err: logTraceEvent err: bad event") /\
  fst (deleteTrace_try Examples.erase (Examples.started Examples.flaky))
  = Throw (new_Error "deleteTrace err: deleteTrace err: busy").
Proof.
  destruct structured_error_prefixed_twice as (Hsubmit & Hdelete).
  split; [| split].
  - apply (Hsubmit (Examples.bare "deposit_1")
             (Examples.logged Examples.refusing_events)
             {| statusCode := 422;
                body_json := Normal (JObj {[ "error" := JStr "bad event" ]}) |}
             (JObj {[ "error" := JStr "bad event" ]}) "bad event").
    + vm_compute. reflexivity.
    + left. apply cached. vm_compute. reflexivity.
    + vm_compute. reflexivity.
    + vm_compute. discriminate.
    + reflexivity.
    + vm_compute. reflexivity.
  - apply (Hsubmit (Examples.bare "deposit_1")
             (Examples.started Examples.refusing_events)
             {| statusCode := 422;
                body_json := Normal (JObj {[ "error" := JStr "bad event" ]}) |}
             (JObj {[ "error" := JStr "bad event" ]}) "bad event").
    + vm_compute. reflexivity.
    + right. vm_compute. reflexivity.
    + vm_compute. reflexivity.
    + vm_compute. discriminate.
    + reflexivity.
    + vm_compute. reflexivity.
  - apply (Hdelete Examples.erase (Examples.started Examples.flaky)
             {| statusCode := 500;
                body_json := Normal (JObj {[ "error" := JStr "busy" ]}) |}
             (JObj {[ "error" := JStr "busy" ]}) "busy").
    + reflexivity.
    + discriminate.
    + vm_compute. reflexivity.
    + vm_compute. discriminate.
    + reflexivity.
    + vm_compute. reflexivity.
Defined.

Lemma deleteTrace_checks_before_network_example :
  fst (deleteTrace_try Examples.erase Examples.keyless)
  = Throw (new_Error "API key is required for deleteTrace") /\
  calls (world (snd (deleteTrace Examples.erase Examples.keyless))) = [] /\
  fst (deleteTrace_try (Examples.erase_key EmptyString)
         (Examples.started Examples.up))
  = Throw (new_Error "traceKey is required").
Proof.
  destruct (deleteTrace_checks_before_network Examples.erase Examples.keyless)
    as (Hkeyless & _ & Hquiet).
  destruct (deleteTrace_checks_before_network (Examples.erase_key EmptyString)
              (Examples.started Examples.up)) as (_ & Hnameless & _).
  split; [rewrite Hkeyless; reflexivity |].
  split.
  - destruct Hquiet as (_ & _ & Hcalls); [left; reflexivity |].
    rewrite Hcalls. reflexivity.
  - rewrite Hnameless; reflexivity.
Defined.

Lemma deleteTrace_sends_upper_cased_key_example :
  issued (Examples.started Examples.up)
    (snd (deleteTrace Examples.erase (Examples.started Examples.up)))
  = [ {| url := "https://helles.example/traces/delete"; method := POST;
         body := DeleteBody {| DeletePayload.apiKey := "secret";
                               DeletePayload.traceKey := "DEPOSIT_1_DEV" |} |} ].
Proof.
  rewrite (deleteTrace_sends_upper_cased_key Examples.erase
             (Examples.started Examples.up) "secret");
    [reflexivity | reflexivity | discriminate | discriminate].
Defined.

(** A deletion answered with status 200 and a body that is not JSON fails,
    and has evicted the key; a refused deletion leaves the cache. *)
Lemma deleteTrace_evicts_iff_accepted_example :
  (exists e,
     fst (deleteTrace_try (Examples.erase_key "DEPOSIT_1")
            (Examples.logged_upper Examples.garbled)) = Throw e) /\
  "DEPOSIT_1" ∈ registeredTraces (this (Examples.logged_upper Examples.garbled))
  /\
  ("DEPOSIT_1"
   ∉ registeredTraces
       (this (snd (deleteTrace (Examples.erase_key "DEPOSIT_1")
                     (Examples.logged_upper Examples.garbled))))) /\
  registeredTraces
    (this (snd (deleteTrace Examples.erase (Examples.started Examples.flaky))))
  = registeredTraces (this (Examples.started Examples.flaky)).
Proof.
  destruct (deleteTrace_evicts_iff_accepted
              (Examples.erase_key "DEPOSIT_1")
              (Examples.logged_upper Examples.garbled))
    as (Hcache & _ & Hgarbled); [reflexivity | discriminate |].
  destruct (Hgarbled
              {| statusCode := 200;
                 body_json := Throw {| name := "SyntaxError";
                                       message := "Unexpected end of JSON input";
                                       error_field := None |} |}
              {| name := "SyntaxError";
                 message := "Unexpected end of JSON input";
                 error_field := None |})
    as (Haccepted & e & Hthrows & _);
    [vm_compute; reflexivity | reflexivity | reflexivity |].
  split; [exists e; exact Hthrows |].
  split; [apply cached; vm_compute; reflexivity |].
  split.
  - rewrite Hcache, Haccepted.
    rewrite elem_of_difference, elem_of_singleton.
    intros [_ Hother]. apply Hother. reflexivity.
  - destruct (deleteTrace_evicts_iff_accepted
                Examples.erase (Examples.started Examples.flaky))
      as (Hflaky & _); [reflexivity | discriminate |].
    rewrite Hflaky.
    replace (accepted _) with false by (vm_compute; reflexivity).
    reflexivity.
Defined.

(** Logging on [DEPOSIT_1], deleting the trace and logging again: the second
    note registers the trace anew.  The same on [deposit_1]: the second note
    is submitted without a registration. *)
Lemma delete_then_log_registers_again_example :
  let s' := snd (deleteTrace (Examples.erase_key "DEPOSIT_1")
                   (Examples.logged_upper Examples.up)) in
  let t' := snd (deleteTrace (Examples.erase_key "deposit_1")
                   (Examples.logged Examples.up)) in
  "DEPOSIT_1" ∈ registeredTraces (this (Examples.logged_upper Examples.up)) /\
  (exists rest,
     issued s' (snd (logTraceEvent (Examples.bare "DEPOSIT_1") s'))
     = registration_request (this s') "DEPOSIT_1" :: rest) /\
  issued t' (snd (logTraceEvent (Examples.bare "deposit_1") t'))
  = [submission_request (this t') (event_payload (Examples.bare "deposit_1") t')].
Proof.
  cbv zeta.
  split; [apply cached; vm_compute; reflexivity |].
  split.
  - destruct (delete_then_log_registers_again
                (Examples.erase_key "DEPOSIT_1") (Examples.bare "DEPOSIT_1")
                (Examples.logged_upper Examples.up) (JObj ∅)
                (snd (deleteTrace (Examples.erase_key "DEPOSIT_1")
                        (Examples.logged_upper Examples.up))))
      as (Hagain & _).
    + vm_compute. reflexivity.
    + reflexivity.
    + vm_compute. reflexivity.
    + destruct Hagain as (_ & Hagain); [vm_compute; reflexivity |].
      exact Hagain.
  - destruct (delete_then_log_registers_again
                (Examples.erase_key "deposit_1") (Examples.bare "deposit_1")
                (Examples.logged Examples.up) (JObj ∅)
                (snd (deleteTrace (Examples.erase_key "deposit_1")
                        (Examples.logged Examples.up))))
      as (_ & Hkept).
    + vm_compute. reflexivity.
    + reflexivity.
    + vm_compute. reflexivity.
    + destruct Hkept as (_ & Hkept);
        [vm_compute; discriminate | apply cached; vm_compute; reflexivity |].
      exact Hkept.
Defined.

Lemma throwing_handler_rejects_with_its_error_example :
  fst (logTraceEvent (Examples.bare_complaining 1000000000000)
         (Examples.started Examples.up))
  = Throw (new_Error "handler failed").
Proof.
  destruct throwing_handler_rejects_with_its_error as (Hlog & _).
  rewrite (Hlog (Examples.bare_complaining 1000000000000)
             (Examples.started Examples.up)
             (out_of_range_error "1000000000000")
             (resolved (Examples.bare_complaining 1000000000000)
                (Examples.started Examples.up))
             Examples.complain
             (new_Error "handler failed")
             (heap (world (resolved (Examples.bare_complaining 1000000000000)
                             (Examples.started Examples.up)))));
    [reflexivity | | reflexivity | reflexivity].
  rewrite logTraceEvent_try_run. cbv zeta.
  replace (out_of_range _) with true by (vm_compute; reflexivity).
  replace (Number_toString _) with "1000000000000"
    by (vm_compute; reflexivity).
  reflexivity.
Defined.

(** A note without attributes leaves the caller's object alone and submits an
    empty attribute mapping. *)
Lemma only_the_attribute_object_is_written_example :
  heap (world (snd (logTraceEvent_try (Examples.bare "deposit_1")
                      (Examples.started Examples.up)))) !! 1%positive
  = Some {[ "amount" := JNum 1000 ]} /\
  EventPayload.eventAttributes
    (event_payload (Examples.bare "deposit_1") (Examples.started Examples.up))
  = ∅.
Proof.
  destruct (only_the_attribute_object_is_written
              (Examples.bare "deposit_1") (Examples.started Examples.up))
    as (Hothers & _ & Hnew & Hcarried).
  split.
  - rewrite Hothers; [reflexivity | vm_compute; discriminate].
  - rewrite (Hcarried _ _ bare_note_submitted eq_refl).
    destruct (Hnew eq_refl) as (_ & ->). reflexivity.
Defined.
